(** * go-list-export: the exported-API lister, embedded and verified

    The development follows [main.go].  Go values are modelled as they
    are in the program: strings are byte strings ([string]), runes are
    integers ([Z]), a panic is the [None] of an [option] result, and
    the text written to standard output is the list of printed lines. *)

From Stdlib Require Import ZArith List Bool Ascii String Lia.
From Stdlib Require Import Sorted Permutation.
Import ListNotations.

Set Warnings "-register-all".

Open Scope string_scope.
Open Scope Z_scope.

(** ** Panics

    A Go function that may panic returns [option]: [None] is the panic,
    which unwinds through every caller. *)

Definition bind {A B : Type} (m : option A) (k : A -> option B) : option B :=
  match m with
  | Some a => k a
  | None => None
  end.

Notation "x <- m ;; k" := (bind m (fun x => k))
  (at level 61, m at next level, right associativity).

(** Go's [append(res, s)] on a slice of strings. *)
Definition append (res : list string) (s : string) : list string :=
  List.app res [s].

(** ** Strings of the Go runtime and of package [strings] *)

Module GoStrings.

Definition newline : string := String (ascii_of_nat 10) EmptyString.

(** [strings.HasPrefix(s, prefix)]: [s] is at least as long as [prefix]
    and starts with its bytes. *)
Fixpoint HasPrefix (s pre : string) {struct pre} : bool :=
  match pre with
  | EmptyString => true
  | String a pre' =>
      match s with
      | String b s' => Ascii.eqb b a && HasPrefix s' pre'
      | EmptyString => false
      end
  end.

(** [strings.Join(elems, sep)]. *)
Definition Join (elems : list string) (sep : string) : string :=
  String.concat sep elems.

(** [strings.Split(s, sep)] for a separator of one byte, which is what
    [string(os.PathSeparator)] is; [cur] is the segment being read. *)
Fixpoint SplitFrom (sep : ascii) (cur s : string) : list string :=
  match s with
  | EmptyString => [cur]
  | String c rest =>
      if Ascii.eqb c sep then cur :: SplitFrom sep EmptyString rest
      else SplitFrom sep (cur ++ String c EmptyString) rest
  end.

Definition Split (s : string) (sep : ascii) : list string :=
  SplitFrom sep EmptyString s.

(** A byte of a string as the integer Go sees. *)
Definition byte (c : ascii) : Z := Z.of_N (N_of_ascii c).

(** *** UTF-8 decoding, [runtime/utf8.go] *)

Definition runeError : Z := 0xFFFD.
Definition runeSelf : Z := 0x80.
Definition maxRune : Z := 0x10FFFF.
Definition surrogateMin : Z := 0xD800.
Definition surrogateMax : Z := 0xDFFF.
Definition t2 : Z := 0xC0.
Definition t3 : Z := 0xE0.
Definition t4 : Z := 0xF0.
Definition t5 : Z := 0xF8.
Definition maskx : Z := 0x3F.
Definition mask2 : Z := 0x1F.
Definition mask3 : Z := 0x0F.
Definition mask4 : Z := 0x07.
Definition rune1Max : Z := 0x7F.
Definition rune2Max : Z := 0x7FF.
Definition rune3Max : Z := 0xFFFF.
Definition locb : Z := 0x80.
Definition hicb : Z := 0xBF.

(** [len(s) > i && locb <= s[i] && s[i] <= hicb], giving [s[i] & maskx]. *)
Definition cont (s : string) (i : nat) : option Z :=
  match String.get i s with
  | Some c =>
      if (locb <=? byte c) && (byte c <=? hicb)
      then Some (Z.land (byte c) maskx) else None
  | None => None
  end.

(** The rune at the head of [s] and the number of bytes it takes: the
    single-byte fast path of a [range] loop, then [decoderune]. *)
Definition decoderune (s : string) : Z * nat :=
  match s with
  | EmptyString => (runeError, 1%nat)
  | String c0 _ =>
      let b0 := byte c0 in
      if b0 <? runeSelf then (b0, 1%nat)
      else if (t2 <=? b0) && (b0 <? t3) then
        match cont s 1 with
        | Some x1 =>
            let r := Z.lor (Z.shiftl (Z.land b0 mask2) 6) x1 in
            if rune1Max <? r then (r, 2%nat) else (runeError, 1%nat)
        | None => (runeError, 1%nat)
        end
      else if (t3 <=? b0) && (b0 <? t4) then
        match cont s 1, cont s 2 with
        | Some x1, Some x2 =>
            let r := Z.lor (Z.lor (Z.shiftl (Z.land b0 mask3) 12)
                                  (Z.shiftl x1 6)) x2 in
            if (rune2Max <? r)
               && negb ((surrogateMin <=? r) && (r <=? surrogateMax))
            then (r, 3%nat) else (runeError, 1%nat)
        | _, _ => (runeError, 1%nat)
        end
      else if (t4 <=? b0) && (b0 <? t5) then
        match cont s 1, cont s 2, cont s 3 with
        | Some x1, Some x2, Some x3 =>
            let r := Z.lor (Z.lor (Z.lor (Z.shiftl (Z.land b0 mask4) 18)
                                         (Z.shiftl x1 12))
                                  (Z.shiftl x2 6)) x3 in
            if (rune3Max <? r) && (r <=? maxRune)
            then (r, 4%nat) else (runeError, 1%nat)
        | _, _, _ => (runeError, 1%nat)
        end
      else (runeError, 1%nat)
  end.

(** [[]rune(s)]: [skip] bytes belong to the rune decoded last. *)
Fixpoint runesFrom (skip : nat) (s : string) : list Z :=
  match s with
  | EmptyString => []
  | String _ rest =>
      match skip with
      | S k => runesFrom k rest
      | O => fst (decoderune s) :: runesFrom (Nat.pred (snd (decoderune s))) rest
      end
  end.

Definition runes (s : string) : list Z := runesFrom 0 s.

End GoStrings.

Import GoStrings.

(** ** Package [unicode] *)

Module Unicode.

Definition MaxLatin1 : Z := 0xFF.

(** [properties[uint8(r)]&pLmask == pLu]: the upper-case letters of
    Latin-1 are A-Z, U+00C0-U+00D6 and U+00D8-U+00DE. *)
Definition latin1Upper (r : Z) : bool :=
  ((0x41 <=? r) && (r <=? 0x5A))
  || ((0xC0 <=? r) && (r <=? 0xD6))
  || ((0xD8 <=? r) && (r <=? 0xDE)).

End Unicode.

(** ** Package [go/token] *)

Module Token.

(** The tokens that occur in the nodes handled here. *)
Inductive Token : Type :=
| INT | FLOAT | IMAG | CHAR | STRING
| ADD | SUB | MUL | QUO | REM
| AND | OR | XOR | SHL | SHR | AND_NOT
| LAND | LOR | ARROW
| EQL | LSS | GTR | NOT | NEQ | LEQ | GEQ | TILDE
| IMPORT | CONST | TYPE | VAR.

(** [Token.String]. *)
Definition String (t : Token) : string :=
  match t with
  | INT => "INT" | FLOAT => "FLOAT" | IMAG => "IMAG"
  | CHAR => "CHAR" | STRING => "STRING"
  | ADD => "+" | SUB => "-" | MUL => "*" | QUO => "/" | REM => "%"
  | AND => "&" | OR => "|" | XOR => "^" | SHL => "<<" | SHR => ">>"
  | AND_NOT => "&^"
  | LAND => "&&" | LOR => "||" | ARROW => "<-"
  | EQL => "==" | LSS => "<" | GTR => ">" | NOT => "!"
  | NEQ => "!=" | LEQ => "<=" | GEQ => ">=" | TILDE => "~"
  | IMPORT => "import" | CONST => "const" | TYPE => "type" | VAR => "var"
  end.

End Token.

(** ** Package [go/ast]

    [Expr] is the interface type [ast.Expr]: [Nil] is the nil interface
    value, every other constructor a node.  Source positions, comments
    and statement bodies, which the program never reads, are left out.
    A [*ast.FieldList] that may be nil is an [option]. *)

Record Field_ (E : Type) : Type := mkField {
  Names : list string;
  Type_ : E
}.
Arguments mkField {E} _ _.
Arguments Names {E} _.
Arguments Type_ {E} _.

Record FuncType_ (E : Type) : Type := mkFuncType {
  TypeParams : option (list (Field_ E));
  Params : list (Field_ E);
  Results : option (list (Field_ E))
}.
Arguments mkFuncType {E} _ _ _.
Arguments TypeParams {E} _.
Arguments Params {E} _.
Arguments Results {E} _.

Inductive Expr : Type :=
| Nil
| BadExpr
| Ident (Name : string)
| Ellipsis (Elt : Expr)
| BasicLit (Kind : Token.Token) (Value : string)
| FuncLit (Type' : FuncType_ Expr)
| CompositeLit (Type' : Expr) (Elts : list Expr)
| ParenExpr (X : Expr)
| SelectorExpr (X : Expr) (Sel : string)
| IndexExpr (X Index : Expr)
| IndexListExpr (X : Expr) (Indices : list Expr)
| SliceExpr (X Low High Max : Expr) (Slice3 : bool)
| TypeAssertExpr (X Type' : Expr)
| CallExpr (Fun : Expr) (Args : list Expr)
| StarExpr (X : Expr)
| UnaryExpr (Op : Token.Token) (X : Expr)
| BinaryExpr (X : Expr) (Op : Token.Token) (Y : Expr)
| KeyValueExpr (Key Value : Expr)
| ArrayType (Len Elt : Expr)
| StructType (Fields : option (list (Field_ Expr)))
| FuncType (t : FuncType_ Expr)
| InterfaceType (Methods : option (list (Field_ Expr)))
| MapType (Key Value : Expr)
| ChanType (Dir : Z) (Value : Expr).

Definition Field : Type := Field_ Expr.
Definition FieldList : Type := list Field.

Inductive Spec : Type :=
| ImportSpec (Path : string)
| ValueSpec (Names : list string) (Type' : Expr) (Values : list Expr)
| TypeSpec (Name : string) (Type' : Expr).

Record GenDecl : Type := mkGenDecl {
  Tok : Token.Token;
  Specs : list Spec
}.

Record FuncDecl : Type := mkFuncDecl {
  Recv : option FieldList;
  Name : string;
  FType : FuncType_ Expr
}.

Inductive Decl : Type :=
| BadDecl
| DeclFunc (decl : FuncDecl)
| DeclGen (decl : GenDecl).

(** [ast.File], as far as the program reads it. *)
Record File : Type := mkFile {
  Decls : list Decl
}.

(** [fs.DirEntry]. *)
Record DirEntry : Type := mkDirEntry {
  EntryName : string;
  IsDir : bool
}.

(** ** The host: what the program takes from the Go library and the
    operating system *)

Class Host : Type := {
  (** membership in the range table [unicode.Upper] beyond Latin-1 *)
  isExcludingLatinUpper : Z -> bool;
  (** the verb [%#v] of package [fmt] on a node, a field list, a field *)
  GoSyntaxExpr : Expr -> string;
  GoSyntaxFieldList : FieldList -> string;
  GoSyntaxField : Field -> string;
  (** [filepath.Base] and [filepath.Join] of two elements *)
  Base : string -> string;
  JoinPath : string -> string -> string;
  (** [filepath.SplitList] *)
  SplitList : string -> list string;
  (** [os.PathSeparator] *)
  PathSeparator : ascii;
  (** [os.Getenv] and [build.Default.GOPATH] *)
  Getenv : string -> string;
  GOPATH : string;
  (** [os.ReadDir]: the entries sorted by name, [None] for an error *)
  ReadDir : string -> option (list DirEntry)
}.

(** ** The program, [main.go] *)

Section Program.

Context {host : Host}.

(** [unicode.IsUpper]. *)
Definition IsUpper (r : Z) : bool :=
  if (0 <=? r) && (r <=? Unicode.MaxLatin1) then Unicode.latin1Upper r
  else isExcludingLatinUpper r.

(** [isUpper0]: indexing the rune slice out of range panics. *)
Definition isUpper0 (s : string) : option bool :=
  if HasPrefix s "*" then
    r <- nth_error (runes s) 1 ;; Some (IsUpper r)
  else
    r <- nth_error (runes s) 0 ;; Some (IsUpper r).

(** *** The renderer *)

Section Fields.

Variable formatType : Expr -> string.

(** The inner loop of [formatFields], over [field.Names]: [n] is
    [len(field.Names)], [j] the index, [s] the text so far. *)
Fixpoint namesLoop (n j : nat) (names : list string) (s : string) : string :=
  match names with
  | [] => s
  | name :: rest =>
      let s := s ++ name in
      let s := if negb (Nat.eqb j (n - 1)) then s ++ "," else s in
      let s := s ++ " " in
      namesLoop n (S j) rest s
  end.

(** The outer loop of [formatFields], over [fields.List]. *)
Fixpoint fieldsLoop (n i : nat) (fields : list Field) (s : string) : string :=
  match fields with
  | [] => s
  | field :: rest =>
      let s := namesLoop (List.length (Names field)) 0 (Names field) s in
      let s := s ++ formatType (Type_ field) in
      let s := if negb (Nat.eqb i (n - 1)) then s ++ ", " else s in
      fieldsLoop n (S i) rest s
  end.

Definition formatFieldsWith (fields : FieldList) : string :=
  fieldsLoop (List.length fields) 0 fields "".

Definition formatFuncResultsWith (fields : option FieldList) : string :=
  let s := "" in
  match fields with
  | Some l =>
      let s := s ++ " " in
      let needPar :=
        (1 <? List.length l)%nat
        || ((List.length l =? 1)%nat
            && match l with
               | f0 :: _ => (0 <? List.length (Names f0))%nat
               | [] => false
               end) in
      let s := if needPar then s ++ "(" else s in
      let s := s ++ formatFieldsWith l in
      let s := if needPar then s ++ ")" else s in
      s
  | None => s
  end.

(** The case [*ast.FuncType] of [formatType]. *)
Definition formatFuncTypeWith (t : FuncType_ Expr) : string :=
  "func(" ++ formatFieldsWith (Params t) ++ ")"
  ++ formatFuncResultsWith (Results t).

End Fields.

(** [e != nil] is [negb (isNil e)]. *)
Definition isNil (e : Expr) : bool :=
  match e with
  | Nil => true
  | _ => false
  end.

Fixpoint formatType (typ : Expr) : string :=
  match typ with
  | Nil => ""
  | Ident name => name
  | SelectorExpr x sel => formatType x ++ "." ++ sel
  | StarExpr x => "*" ++ formatType x
  | ArrayType len elt => "[" ++ formatType len ++ "]" ++ formatType elt
  | Ellipsis elt => "..." ++ formatType elt
  | FuncType t => formatFuncTypeWith formatType t
  | MapType key value => "map[" ++ formatType key ++ "]" ++ formatType value
  | ChanType dir value =>
      let s := "" in
      let s := if dir =? 1 then "<-chan"
               else if dir =? 2 then "chan<-"
               else if dir =? 3 then "chan"
               else s in
      s ++ " " ++ formatType value
  | BasicLit _ value => value
  | StructType _ => "struct{}"
  | InterfaceType _ => "interface{}"
  | UnaryExpr op x => Token.String op ++ formatType x
  | CompositeLit type _ => formatType type ++ "{}"
  | CallExpr f _ => formatType f ++ "()"
  | BinaryExpr x op y =>
      formatType x ++ " " ++ Token.String op ++ " " ++ formatType y
  | FuncLit type => formatFuncTypeWith formatType type
  | IndexExpr x index => formatType x ++ "[" ++ formatType index ++ "]"
  | IndexListExpr x indices =>
      let typ := List.map formatType indices in
      formatType x ++ "[" ++ Join typ ", " ++ "]"
  | ParenExpr x => "(" ++ formatType x ++ ")"
  | SliceExpr x low high max slice3 =>
      let s := formatType x in
      let s := s ++ "[" in
      let s := if negb (isNil low) then s ++ formatType low else s in
      let s := s ++ ":" in
      let s := if negb (isNil high) then s ++ formatType high else s in
      let s := if slice3 then s ++ ":" else s in
      let s := if negb (isNil max) then s ++ formatType max else s in
      let s := s ++ "]" in
      s
  | TypeAssertExpr x type => formatType x ++ ".(" ++ formatType type ++ ")"
  | BadExpr => "unsupported type " ++ GoSyntaxExpr typ
  | KeyValueExpr _ _ => "unsupported type " ++ GoSyntaxExpr typ
  end.

Definition formatFields : FieldList -> string := formatFieldsWith formatType.

Definition formatFuncResults : option FieldList -> string :=
  formatFuncResultsWith formatType.

(** *** The declaration formatter *)

(** [formatFuncDecl].  [recv] is [decl.Recv.List]: the first test is
    [len(decl.Recv.List) != 1], the tests on the field are
    [len(field.Names) == 0] and [len(field.Names) != 1]. *)
Definition formatFuncDecl (decl : FuncDecl) : string :=
  let tail (s : string) : string :=
    let s := s ++ Name decl in
    let s := match TypeParams (FType decl) with
             | Some tparams => s ++ "[" ++ formatFields tparams ++ "]"
             | None => s
             end in
    let s := s ++ "(" ++ formatFields (Params (FType decl)) ++ ")" in
    let s := s ++ formatFuncResults (Results (FType decl)) in
    s in
  let s := "func " in
  match Recv decl with
  | Some recv =>
      match recv with
      | [field] =>
          match Names field with
          | [] => ""
          | [name] =>
              tail (s ++ "(" ++ name ++ " " ++ formatType (Type_ field) ++ ") ")
          | _ =>
              "strange receiver field for " ++ Name decl ++ ": "
              ++ GoSyntaxField field
          end
      | _ =>
          "strange receiver for " ++ Name decl ++ ": "
          ++ GoSyntaxFieldList recv
      end
  | None => tail s
  end.

(** [exported]: a receiver list that has not exactly one field panics;
    [&&] evaluates its right operand only when the left one is true. *)
Definition exported (decl : FuncDecl) : option bool :=
  match Recv decl with
  | Some recv =>
      match recv with
      | [field] =>
          b <- isUpper0 (formatType (Type_ field)) ;;
          if b then isUpper0 (Name decl) else Some false
      | _ => None
      end
  | None => isUpper0 (Name decl)
  end.

(** The loop of [formatGenDecl] over the specs of a [type] declaration. *)
Fixpoint typeSpecsLoop (specs : list Spec) (res : list string)
    : option (list string) :=
  match specs with
  | [] => Some res
  | spec :: rest =>
      match spec with
      | TypeSpec name type =>
          b <- isUpper0 name ;;
          if b
          then typeSpecsLoop rest
                 (append res ("type " ++ name ++ " " ++ formatType type))
          else typeSpecsLoop rest res
      | _ => typeSpecsLoop rest res
      end
  end.

(** The loop over [sp.Names] of one value spec; [i] is the index. *)
Fixpoint valueNamesLoop (key typ : string) (values : list Expr) (i : nat)
    (names : list string) (res : list string) : option (list string) :=
  match names with
  | [] => Some res
  | name :: rest =>
      b <- isUpper0 name ;;
      if b then
        let s := key ++ " " ++ name ++ " " ++ typ in
        let s := if (i <? List.length values)%nat
                 then s ++ "= " ++ formatType (nth i values Nil)
                 else s in
        valueNamesLoop key typ values (S i) rest (append res s)
      else valueNamesLoop key typ values (S i) rest res
  end.

(** The shared type text of a value spec: [formatType(sp.Type)], with a
    space after it when it is not empty. *)
Definition valueTypeText (type : Expr) : string :=
  let typ := formatType type in
  if negb (String.eqb typ "") then typ ++ " " else typ.

(** The loop of [formatGenDecl] over the specs of a [var] or [const]
    declaration. *)
Fixpoint valueSpecsLoop (key : string) (specs : list Spec) (res : list string)
    : option (list string) :=
  match specs with
  | [] => Some res
  | spec :: rest =>
      match spec with
      | ValueSpec names type values =>
          res <- valueNamesLoop key (valueTypeText type) values 0 names res ;;
          valueSpecsLoop key rest res
      | _ => valueSpecsLoop key rest res
      end
  end.

Definition formatGenDecl (decl : GenDecl) : option string :=
  res <- match Tok decl with
         | Token.TYPE => typeSpecsLoop (Specs decl) []
         | Token.VAR => valueSpecsLoop "var" (Specs decl) []
         | Token.CONST => valueSpecsLoop "const" (Specs decl) []
         | _ => Some []
         end ;;
  Some (Join res newline).

(** *** The file exporter *)

(** [printFileName]: the line it prints. *)
Definition printFileName (path : string) : string :=
  "// " ++ Base path ++ ":".

(** The loop of [printGoFileExport] over [f.Decls]. *)
Fixpoint declsLoop (decls : list Decl) (res : list string)
    : option (list string) :=
  match decls with
  | [] => Some res
  | xdecl :: rest =>
      match xdecl with
      | DeclFunc decl =>
          b <- exported decl ;;
          if b then declsLoop rest (append res (formatFuncDecl decl))
          else declsLoop rest res
      | DeclGen decl =>
          s <- formatGenDecl decl ;;
          if negb (String.eqb s "") then declsLoop rest (append res s)
          else declsLoop rest res
      | BadDecl => declsLoop rest res
      end
  end.

(** [printGoFileExport]: the lines written to standard output, one for
    each call of a print function. *)
Definition printGoFileExport (filepath : string) (f : File)
    : option (list string) :=
  res <- declsLoop (Decls f) [] ;;
  if (List.length res =? 0)%nat then Some []
  else Some (printFileName filepath :: List.app res [""]).

(** *** The package path resolver *)

Definition goModCache : string :=
  let gomodcache := Getenv "GOMODCACHE" in
  if negb (String.eqb gomodcache "") then gomodcache
  else
    match SplitList GOPATH with
    | [] => ""
    | l0 :: _ => if String.eqb l0 "" then "" else JoinPath l0 "pkg/mod"
    end.

(** The test of the inner loop of [searchPackagePathFromGoModCache]. *)
Definition entryMatches (name : string) (f : DirEntry) : bool :=
  IsDir f
  && (String.eqb (EntryName f) name || HasPrefix (EntryName f) (name ++ "@")).

(** The inner loop: [Some pa'] is [continue Loop] with the new path,
    [None] is the loop running to its end. *)
Fixpoint entriesLoop (pa name : string) (list : list DirEntry)
    : option string :=
  match list with
  | [] => None
  | f :: rest =>
      if entryMatches name f then Some (JoinPath pa (EntryName f))
      else entriesLoop pa name rest
  end.

(** The outer loop, over the segments; [ReadDir] failing panics. *)
Fixpoint segmentsLoop (names : list string) (pa : string) : option string :=
  match names with
  | [] => Some pa
  | name :: rest =>
      list <- ReadDir pa ;;
      match entriesLoop pa name list with
      | Some pa' => segmentsLoop rest pa'
      | None => Some ""
      end
  end.

Definition searchPackagePathFromGoModCache (importPath : string)
    : option string :=
  segmentsLoop (Split importPath PathSeparator) goModCache.

End Program.

(** ** A host to run the program on examples

    The path functions below agree with the Go library on the inputs of
    the examples, which are clean slash-separated paths.  The debug
    forms are shortened: the ones of package [fmt] print every field of
    the node and the addresses of the nodes below it. *)

Module Sample.

(** An excerpt of [unicode.Upper]: the Greek and Cyrillic capitals. *)
Definition upper (r : Z) : bool :=
  ((0x391 <=? r) && (r <=? 0x3A9)) || ((0x410 <=? r) && (r <=? 0x42F)).

Definition goSyntaxExpr (e : Expr) : string :=
  match e with
  | BadExpr => "&ast.BadExpr{From:0, To:0}"
  | KeyValueExpr _ _ => "&ast.KeyValueExpr{}"
  | _ => "&ast.Node{}"
  end.

Definition goSyntaxFieldList (l : FieldList) : string := "&ast.FieldList{}".

Definition goSyntaxField (f : Field) : string := "&ast.Field{}".

Definition base (path : string) : string :=
  List.last (Split path "/"%char) "".

Definition join (a b : string) : string := a ++ "/" ++ b.

Definition splitList (path : string) : list string :=
  if String.eqb path "" then [] else Split path ":"%char.

(** A module cache at [/cache] that holds [a/b@1.2.3], beside a file
    [b] and a directory [c]. *)
Definition readDir (path : string) : option (list DirEntry) :=
  if String.eqb path "/cache" then
    Some [mkDirEntry "a" true; mkDirEntry "cache" true]
  else if String.eqb path "/cache/a" then
    Some [mkDirEntry "b" false; mkDirEntry "b@1.2.3" true;
          mkDirEntry "b@1.4.0" true; mkDirEntry "c" true]
  else if String.eqb path "/cache/a/b@1.2.3" then Some []
  else None.

Definition getenv (key : string) : string :=
  if String.eqb key "GOMODCACHE" then "/cache" else "".

Definition host : Host := {|
  isExcludingLatinUpper := upper;
  GoSyntaxExpr := goSyntaxExpr;
  GoSyntaxFieldList := goSyntaxFieldList;
  GoSyntaxField := goSyntaxField;
  Base := base;
  JoinPath := join;
  SplitList := splitList;
  PathSeparator := "/"%char;
  Getenv := getenv;
  GOPATH := "/home/user/go";
  ReadDir := readDir
|}.

Definition noParams : FuncType_ Expr := mkFuncType None [] None.

(** [func (Bar) Foo()]: the receiver has no name. *)
Definition fooOnUnnamed : FuncDecl :=
  mkFuncDecl (Some [mkField [] (Ident "Bar")]) "Foo" noParams.

(** [func () Foo()] and [func (a Bar, b Baz) Foo()]. *)
Definition fooNoReceiver : FuncDecl :=
  mkFuncDecl (Some []) "Foo" noParams.

Definition fooTwoReceivers : FuncDecl :=
  mkFuncDecl (Some [mkField ["a"] (Ident "Bar"); mkField ["b"] (Ident "Baz")])
             "Foo" noParams.

(** [func (a, b Bar) Foo()] and [func (a, b bar) foo()]. *)
Definition fooTwoNames : FuncDecl :=
  mkFuncDecl (Some [mkField ["a"; "b"] (Ident "Bar")]) "Foo" noParams.

Definition fooTwoNamesHidden : FuncDecl :=
  mkFuncDecl (Some [mkField ["a"; "b"] (Ident "bar")]) "foo" noParams.

(** [type Baz struct{}]. *)
Definition typeBaz : Decl :=
  DeclGen (mkGenDecl Token.TYPE [TypeSpec "Baz" (StructType None)]).

End Sample.

(** ** Notions of the specification *)

(** The name after stripping one leading pointer marker,
    [strings.TrimPrefix(s, "*")]. *)
Definition stripStar (s : string) : string :=
  if HasPrefix s "*" then
    match s with
    | String _ t => t
    | EmptyString => EmptyString
    end
  else s.

(** The first character of a string. *)
Definition firstChar (s : string) : option Z := List.hd_error (runes s).

(** A name the classifier accepts. *)
Definition eligible {host : Host} (name : string) : bool :=
  match isUpper0 name with
  | Some true => true
  | _ => false
  end.

(** The node kinds [formatType] has a case for. *)
Definition enumerated (e : Expr) : bool :=
  match e with
  | BadExpr | KeyValueExpr _ _ => false
  | _ => true
  end.

(** A result list that takes parentheses: more than one field, or one
    field that carries a name. *)
Definition needsParens (l : FieldList) : Prop :=
  (1 < List.length l)%nat \/ exists f, l = [f] /\ Names f <> [].

Section Resolution.

Context {host : Host}.

(** A directory child that fits a segment: a directory whose name is the
    segment, or starts with the segment and an at sign. *)
Definition fits (seg : string) (f : DirEntry) : Prop :=
  IsDir f = true
  /\ (EntryName f = seg \/ exists v, EntryName f = seg ++ "@" ++ v).

(** [f] is the first child of the listing [l] that fits [seg]. *)
Definition firstFit (seg : string) (l : list DirEntry) (f : DirEntry) : Prop :=
  exists l1 l2, l = (l1 ++ f :: l2)%list /\ fits seg f
                /\ Forall (fun g => ~ fits seg g) l1.

(** Descending from [pa] along the segments selects the children
    [names], one for each segment. *)
Inductive Descends : string -> list string -> list string -> Prop :=
| Descends_nil pa : Descends pa [] []
| Descends_cons pa seg segs l f names :
    ReadDir pa = Some l ->
    firstFit seg l f ->
    Descends (JoinPath pa (EntryName f)) segs names ->
    Descends pa (seg :: segs) (EntryName f :: names).

(** The root joined with every selected child. *)
Definition joined (root : string) (names : list string) : string :=
  List.fold_left JoinPath names root.

(** Some segment has no fitting child in the directory reached. *)
Definition Stuck (root : string) (segs : list string) : Prop :=
  exists pre seg post names l,
    segs = (pre ++ seg :: post)%list
    /\ Descends root pre names
    /\ ReadDir (joined root names) = Some l
    /\ Forall (fun g => ~ fits seg g) l.

End Resolution.

(** *** Declarations *)

(** A method whose receiver is one field that bears one name. *)
Definition method (recvName : string) (recvType : Expr) (name : string)
    (type : FuncType_ Expr) : FuncDecl :=
  mkFuncDecl (Some [mkField [recvName] recvType]) name type.

(** The names of a value spec with their positions, from [i] on. *)
Definition indexedFrom (i : nat) (names : list string) : list (nat * string) :=
  List.combine (List.seq i (List.length names)) names.

Section Lines.

Context {host : Host}.

(** The eligible names of a value spec with their positions. *)
Definition eligibleFrom (i : nat) (names : list string) : list (nat * string) :=
  List.filter (fun p => eligible (snd p)) (indexedFrom i names).

(** The line of the name at position [fst p]. *)
Definition valueLine (key typ : string) (values : list Expr)
    (p : nat * string) : string :=
  key ++ " " ++ snd p ++ " " ++ typ
  ++ match nth_error values (fst p) with
     | Some init => "= " ++ formatType init
     | None => ""
     end.

(** The text of a function or method after its receiver. *)
Definition signatureText (name : string) (type : FuncType_ Expr) : string :=
  name
  ++ match TypeParams type with
     | Some tparams => "[" ++ formatFields tparams ++ "]"
     | None => ""
     end
  ++ "(" ++ formatFields (Params type) ++ ")"
  ++ formatFuncResults (Results type).

End Lines.

(** ** The package scanner and the command, [main.go]

    What [printExported] and [main] take from the Go tool chain beside
    the host: the working directory, the build lookup and the parser. *)

(** What [parser.ParseFile] returns that the program reads: the package
    name, [src.Name.Name], and the file. *)
Record ParsedFile : Type := mkParsedFile {
  PkgName : string;
  Ast : File
}.

Class Toolchain : Type := {
  (** [os.Getwd]; [None] for an error *)
  Getwd : option string;
  (** [build.Default.Import(importPath, fromDir, build.FindOnly)]: the
      field [Dir] of the package, [None] for an error *)
  BuildImport : string -> string -> option string;
  (** [parser.ParseFile(fset, filename, nil, 0)]; [None] for an error *)
  ParseFile : string -> option ParsedFile
}.

(** A run of a printing function: the lines written to standard output,
    and whether the run ended or was cut short by a panic. *)
Inductive Run : Type :=
| Finished (out : list string)
| Aborted (out : list string).

(** [strings.HasSuffix(s, suffix)]. *)
Definition HasSuffix (s suffix : string) : bool :=
  (String.length suffix <=? String.length s)%nat
  && String.eqb
       (String.substring (String.length s - String.length suffix)
                         (String.length suffix) s)
       suffix.

(** The comparison function [printExported] hands to
    [slices.SortFunc]. *)
Definition compareNames (a b : DirEntry) : Z :=
  let namea := EntryName a in
  let nameb := EntryName b in
  if String.eqb namea nameb then 0
  else if String.ltb namea nameb then -1
  else 1.

(** [slices.SortFunc], as a sort by insertion.  The names of a
    directory listing are distinct, and on such a list every sort by
    [compareNames] gives the same list. *)
Fixpoint insertBy {A : Type} (cmp : A -> A -> Z) (x : A) (l : list A)
    : list A :=
  match l with
  | [] => [x]
  | y :: ys => if cmp x y <=? 0 then x :: l else y :: insertBy cmp x ys
  end.

Fixpoint SortFunc {A : Type} (l : list A) (cmp : A -> A -> Z) : list A :=
  match l with
  | [] => []
  | x :: xs => insertBy cmp x (SortFunc xs cmp)
  end.

Section Scanner.

Context {host : Host} {tools : Toolchain}.

(** [getPackagePath]. *)
Definition getPackagePath (importPath fromDir : string) : string :=
  match BuildImport importPath fromDir with
  | None => ""
  | Some dir => dir
  end.

(** The loop of [printExported] over the sorted listing; [out] is what
    has been printed. *)
Fixpoint filesLoop (dirpath : string) (list : list DirEntry)
    (out : Datatypes.list string) : Run :=
  match list with
  | [] => Finished out
  | d :: rest =>
      if IsDir d
         || negb (HasSuffix (EntryName d) ".go")
         || HasSuffix (EntryName d) "_test.go"
      then filesLoop dirpath rest out
      else
        let filepath := JoinPath dirpath (EntryName d) in
        match ParseFile filepath with
        | Some src =>
            if String.eqb (PkgName src) "main"
            then filesLoop dirpath rest out
            else
              match printGoFileExport filepath (Ast src) with
              | Some lines => filesLoop dirpath rest (out ++ lines)%list
              | None => Aborted out
              end
        | None => filesLoop dirpath rest out
        end
  end.

(** [printExported]. *)
Definition printExported (dirpath : string) : Run :=
  match ReadDir dirpath with
  | None => Aborted []
  | Some list => filesLoop dirpath (SortFunc list compareNames) []
  end.

(** The line [main] prints when the build lookup found nothing. *)
Definition fallbackNotice (packagePath : string) : string :=
  "// `go list` failed, fallback to search GOMODCACHE: " ++ packagePath.

(** The end of the body of the loop of [main]: the test for an empty
    path and the call of [printExported]; [next] is the rest of the
    loop. *)
Definition scanPackage (next : list string -> Run) (packagePath : string)
    (out : list string) : Run :=
  if String.eqb packagePath "" then Aborted out
  else
    match printExported packagePath with
    | Finished lines => next (out ++ lines)%list
    | Aborted lines => Aborted (out ++ lines)%list
    end.

(** The loop of [main] over [os.Args[1:]]. *)
Fixpoint argsLoop (cwd : string) (args : list string) (out : list string)
    : Run :=
  match args with
  | [] => Finished out
  | cmdArg :: rest =>
      let packagePath := getPackagePath cmdArg cwd in
      if String.eqb packagePath "" then
        match searchPackagePathFromGoModCache cmdArg with
        | None => Aborted out
        | Some packagePath =>
            scanPackage (argsLoop cwd rest) packagePath
                        (append out (fallbackNotice packagePath))
        end
      else scanPackage (argsLoop cwd rest) packagePath out
  end.

(** [main], on the arguments [os.Args[1:]]. *)
Definition main (args : list string) : Run :=
  match Getwd with
  | None => Aborted []
  | Some cwd => argsLoop cwd args []
  end.

(** *** Notions for the scanner *)

(** An entry [printExported] reads: a file named [*.go] and not
    [*_test.go]. *)
Definition isSource (d : DirEntry) : bool :=
  negb (IsDir d)
  && HasSuffix (EntryName d) ".go"
  && negb (HasSuffix (EntryName d) "_test.go").

(** What one entry of the listing prints: [None] when it panics. *)
Definition fileBlock (dirpath : string) (d : DirEntry)
    : option (list string) :=
  if isSource d then
    match ParseFile (JoinPath dirpath (EntryName d)) with
    | Some src =>
        if String.eqb (PkgName src) "main" then Some []
        else printGoFileExport (JoinPath dirpath (EntryName d)) (Ast src)
    | None => Some []
    end
  else Some [].

(** The blocks of the entries in order, up to the first that panics. *)
Fixpoint blocks (dirpath : string) (entries : list DirEntry) : Run :=
  match entries with
  | [] => Finished []
  | d :: rest =>
      match fileBlock dirpath d with
      | None => Aborted []
      | Some lines =>
          match blocks dirpath rest with
          | Finished out => Finished (lines ++ out)%list
          | Aborted out => Aborted (lines ++ out)%list
          end
      end
  end.

End Scanner.

(** The lines of a run, and a run with lines printed before it. *)
Definition printed (r : Run) : list string :=
  match r with
  | Finished out => out
  | Aborted out => out
  end.

Definition after (before : list string) (r : Run) : Run :=
  match r with
  | Finished out => Finished (before ++ out)%list
  | Aborted out => Aborted (before ++ out)%list
  end.

(** A listing in the order of [os.ReadDir]: by name, ascending. *)
Definition byName (l : list DirEntry) : Prop :=
  StronglySorted (fun a b => String.ltb (EntryName a) (EntryName b) = true) l.

(** The text of the names of a field, and of a field. *)
Definition namesText (names : list string) : string :=
  match names with
  | [] => ""
  | _ => Join names ", " ++ " "
  end.

Definition fieldText {host : Host} (f : Field) : string :=
  namesText (Names f) ++ formatType (Type_ f).

(** The line of a type spec. *)
Definition typeLine {host : Host} (spec : Spec) : list string :=
  match spec with
  | TypeSpec name type =>
      if eligible name then ["type " ++ name ++ " " ++ formatType type]
      else []
  | _ => []
  end.

(** The lines of a value spec. *)
Definition valueLines {host : Host} (key : string) (spec : Spec)
    : list string :=
  match spec with
  | ValueSpec names type values =>
      List.map (valueLine key (valueTypeText type) values)
               (eligibleFrom 0 names)
  | _ => []
  end.

(** A sample tool chain: the package [/src/p] holds [a.go], whose only
    declaration is [type Baz struct{}], a test file and a directory. *)
Module SampleTools.

Definition parseFile (filename : string) : option ParsedFile :=
  if String.eqb filename "/src/p/a.go"
  then Some (mkParsedFile "p" (mkFile [Sample.typeBaz]))
  else if String.eqb filename "/src/p/cmd.go"
  then Some (mkParsedFile "main" (mkFile [DeclFunc Sample.fooNoReceiver]))
  else None.

Definition buildImport (importPath fromDir : string) : option string :=
  if String.eqb importPath "example.com/p" then Some "/src/p" else None.

Definition readDir (path : string) : option (list DirEntry) :=
  if String.eqb path "/src/p" then
    Some [mkDirEntry "a.go" false; mkDirEntry "a_test.go" false;
          mkDirEntry "broken.go" false; mkDirEntry "cmd.go" false;
          mkDirEntry "sub.go" true]
  else Sample.readDir path.

Definition host : Host := {|
  isExcludingLatinUpper := Sample.upper;
  GoSyntaxExpr := Sample.goSyntaxExpr;
  GoSyntaxFieldList := Sample.goSyntaxFieldList;
  GoSyntaxField := Sample.goSyntaxField;
  Base := Sample.base;
  JoinPath := Sample.join;
  SplitList := Sample.splitList;
  PathSeparator := "/"%char;
  Getenv := Sample.getenv;
  GOPATH := "/home/user/go";
  ReadDir := readDir
|}.

(** A host with neither [GOMODCACHE] nor [GOPATH]. *)
Definition bareHost : Host := {|
  isExcludingLatinUpper := Sample.upper;
  GoSyntaxExpr := Sample.goSyntaxExpr;
  GoSyntaxFieldList := Sample.goSyntaxFieldList;
  GoSyntaxField := Sample.goSyntaxField;
  Base := Sample.base;
  JoinPath := Sample.join;
  SplitList := Sample.splitList;
  PathSeparator := "/"%char;
  Getenv := fun _ => "";
  GOPATH := "";
  ReadDir := readDir
|}.

Definition tools : Toolchain := {|
  Getwd := Some "/home/user";
  BuildImport := buildImport;
  ParseFile := parseFile
|}.

End SampleTools.

(** ** The renderer on nodes as Go holds them

    In Go a node is reached through pointers, and a pointer can be nil.
    [Node] is the interface type [ast.Expr] with every such pointer in
    the open: the interface can hold a nil pointer of a node type, and
    a field list, a field, the identifier of a name or of a selector,
    and the function type of a literal can be nil.  [formatType] uses
    them without a test, so it can panic; and it calls itself, so its
    recursion is followed with fuel, one unit for each call. *)

Inductive Outcome (A : Type) : Type :=
| Returns (a : A)
| Panics
| OutOfFuel.
Arguments Returns {A} _.
Arguments Panics {A}.
Arguments OutOfFuel {A}.

Definition bindO {A B : Type} (m : Outcome A) (k : A -> Outcome B) : Outcome B :=
  match m with
  | Returns a => k a
  | Panics => Panics
  | OutOfFuel => OutOfFuel
  end.

Notation "x <~ m ;; k" := (bindO m (fun x => k))
  (at level 61, m at next level, right associativity).

(** A run that ends: with a result or with a panic. *)
Definition Halts {A : Type} (o : Outcome A) : Prop := o <> OutOfFuel.

(** The node types that implement [ast.Expr]. *)
Inductive NodeKind : Type :=
| KBadExpr | KIdent | KEllipsis | KBasicLit | KFuncLit | KCompositeLit
| KParenExpr | KSelectorExpr | KIndexExpr | KIndexListExpr | KSliceExpr
| KTypeAssertExpr | KCallExpr | KStarExpr | KUnaryExpr | KBinaryExpr
| KKeyValueExpr | KArrayType | KStructType | KFuncType | KInterfaceType
| KMapType | KChanType.

(** [*ast.Field]: [Names] is a slice of [*ast.Ident]. *)
Record PField_ (N : Type) : Type := mkPField {
  PNames : list (option string);
  PType : N
}.
Arguments mkPField {N} _ _.
Arguments PNames {N} _.
Arguments PType {N} _.

(** [*ast.FuncType]: its three [*ast.FieldList], each with the slice of
    [*ast.Field] it points to. *)
Record PFuncType_ (N : Type) : Type := mkPFuncType {
  PTypeParams : option (list (option (PField_ N)));
  PParams : option (list (option (PField_ N)));
  PResults : option (list (option (PField_ N)))
}.
Arguments mkPFuncType {N} _ _ _.
Arguments PTypeParams {N} _.
Arguments PParams {N} _.
Arguments PResults {N} _.

Inductive Node : Type :=
| PNil
| PTypedNil (kind : NodeKind)
| PBadExpr
| PIdent (Name : string)
| PEllipsis (Elt : Node)
| PBasicLit (Kind : Token.Token) (Value : string)
| PFuncLit (Type' : option (PFuncType_ Node))
| PCompositeLit (Type' : Node) (Elts : list Node)
| PParenExpr (X : Node)
| PSelectorExpr (X : Node) (Sel : option string)
| PIndexExpr (X Index : Node)
| PIndexListExpr (X : Node) (Indices : list Node)
| PSliceExpr (X Low High Max : Node) (Slice3 : bool)
| PTypeAssertExpr (X Type' : Node)
| PCallExpr (Fun : Node) (Args : list Node)
| PStarExpr (X : Node)
| PUnaryExpr (Op : Token.Token) (X : Node)
| PBinaryExpr (X : Node) (Op : Token.Token) (Y : Node)
| PKeyValueExpr (Key Value : Node)
| PArrayType (Len Elt : Node)
| PStructType (Fields : option (list (option (PField_ Node))))
| PFuncType (t : PFuncType_ Node)
| PInterfaceType (Methods : option (list (option (PField_ Node))))
| PMapType (Key Value : Node)
| PChanType (Dir : Z) (Value : Node).

Definition PField : Type := PField_ Node.
Definition PFieldList : Type := option (list (option PField)).

Definition isPNil (n : Node) : bool :=
  match n with
  | PNil => true
  | _ => false
  end.

Section NodeRenderer.

(** The verb [%#v] of package [fmt] on a node. *)
Variable GoSyntaxNode : Node -> string.

(** The recursive call [formatType(...)]. *)
Variable call : Node -> Outcome string.

(** The inner loop of [formatFields]: [name.Name] on a nil identifier
    panics. *)
Fixpoint pNamesLoop (n j : nat) (names : list (option string)) (s : string)
    : Outcome string :=
  match names with
  | [] => Returns s
  | None :: _ => Panics
  | Some name :: rest =>
      let s := s ++ name in
      let s := if negb (Nat.eqb j (n - 1)) then s ++ "," else s in
      let s := s ++ " " in
      pNamesLoop n (S j) rest s
  end.

(** The outer loop of [formatFields]: [field.Names] on a nil field
    panics. *)
Fixpoint pFieldsLoop (n i : nat) (fields : list (option PField)) (s : string)
    : Outcome string :=
  match fields with
  | [] => Returns s
  | None :: _ => Panics
  | Some field :: rest =>
      s <~ pNamesLoop (List.length (PNames field)) 0 (PNames field) s ;;
      t <~ call (PType field) ;;
      let s := s ++ t in
      let s := if negb (Nat.eqb i (n - 1)) then s ++ ", " else s in
      pFieldsLoop n (S i) rest s
  end.

(** [formatFields]: [fields.List] on a nil field list panics. *)
Definition pFormatFields (fields : PFieldList) : Outcome string :=
  match fields with
  | None => Panics
  | Some l => pFieldsLoop (List.length l) 0 l ""
  end.

(** [formatFuncResults]: the only test for nil is the one on [fields];
    [fields.List[0].Names] on a nil field panics. *)
Definition pFormatFuncResults (fields : PFieldList) : Outcome string :=
  let s := "" in
  match fields with
  | Some l =>
      let s := s ++ " " in
      needPar <~ (if (1 <? List.length l)%nat then Returns true
                  else if (List.length l =? 1)%nat then
                    match l with
                    | Some f0 :: _ =>
                        Returns (0 <? List.length (PNames f0))%nat
                    | _ => Panics
                    end
                  else Returns false) ;;
      let s := if (needPar : bool) then s ++ "(" else s in
      t <~ pFormatFields fields ;;
      let s := s ++ t in
      let s := if (needPar : bool) then s ++ ")" else s in
      Returns s
  | None => Returns s
  end.

(** The loop of the case [*ast.IndexListExpr]. *)
Fixpoint pIndicesLoop (indices : list Node) (typ : list string)
    : Outcome (list string) :=
  match indices with
  | [] => Returns typ
  | expr :: rest =>
      t <~ call expr ;;
      pIndicesLoop rest (List.app typ [t])
  end.

(** The body of [formatType], one case for each node type; a case that
    reads a field of [t] panics when [t] is a nil pointer. *)
Definition pFormatTypeBody (typ : Node) : Outcome string :=
  match typ with
  | PNil => Returns ""
  | PTypedNil KStructType => Returns "struct{}"
  | PTypedNil KInterfaceType => Returns "interface{}"
  | PTypedNil KBadExpr | PTypedNil KKeyValueExpr =>
      Returns ("unsupported type " ++ GoSyntaxNode typ)
  | PTypedNil _ => Panics
  | PIdent name => Returns name
  | PSelectorExpr x sel =>
      s <~ call x ;;
      match sel with
      | Some sel => Returns (s ++ "." ++ sel)
      | None => Panics
      end
  | PStarExpr x => s <~ call x ;; Returns ("*" ++ s)
  | PArrayType len elt =>
      l <~ call len ;; e <~ call elt ;; Returns ("[" ++ l ++ "]" ++ e)
  | PEllipsis elt => e <~ call elt ;; Returns ("..." ++ e)
  | PFuncType t =>
      ps <~ pFormatFields (PParams t) ;;
      rs <~ pFormatFuncResults (PResults t) ;;
      Returns ("func(" ++ ps ++ ")" ++ rs)
  | PMapType key value =>
      k <~ call key ;; v <~ call value ;; Returns ("map[" ++ k ++ "]" ++ v)
  | PChanType dir value =>
      let s := "" in
      let s := if dir =? 1 then "<-chan"
               else if dir =? 2 then "chan<-"
               else if dir =? 3 then "chan"
               else s in
      v <~ call value ;; Returns (s ++ " " ++ v)
  | PBasicLit _ value => Returns value
  | PStructType _ => Returns "struct{}"
  | PInterfaceType _ => Returns "interface{}"
  | PUnaryExpr op x => s <~ call x ;; Returns (Token.String op ++ s)
  | PCompositeLit type _ => s <~ call type ;; Returns (s ++ "{}")
  | PCallExpr f _ => s <~ call f ;; Returns (s ++ "()")
  | PBinaryExpr x op y =>
      a <~ call x ;; b <~ call y ;;
      Returns (a ++ " " ++ Token.String op ++ " " ++ b)
  | PFuncLit type =>
      call (match type with
            | Some t => PFuncType t
            | None => PTypedNil KFuncType
            end)
  | PIndexExpr x index =>
      a <~ call x ;; b <~ call index ;; Returns (a ++ "[" ++ b ++ "]")
  | PIndexListExpr x indices =>
      typ <~ pIndicesLoop indices [] ;;
      a <~ call x ;;
      Returns (a ++ "[" ++ Join typ ", " ++ "]")
  | PParenExpr x => s <~ call x ;; Returns ("(" ++ s ++ ")")
  | PSliceExpr x low high max slice3 =>
      s <~ call x ;;
      let s := s ++ "[" in
      s <~ (if negb (isPNil low) then t <~ call low ;; Returns (s ++ t)
            else Returns s) ;;
      let s := s ++ ":" in
      s <~ (if negb (isPNil high) then t <~ call high ;; Returns (s ++ t)
            else Returns s) ;;
      let s := if slice3 then s ++ ":" else s in
      s <~ (if negb (isPNil max) then t <~ call max ;; Returns (s ++ t)
            else Returns s) ;;
      let s := s ++ "]" in
      Returns s
  | PTypeAssertExpr x type =>
      a <~ call x ;; b <~ call type ;; Returns (a ++ ".(" ++ b ++ ")")
  | PBadExpr => Returns ("unsupported type " ++ GoSyntaxNode typ)
  | PKeyValueExpr _ _ => Returns ("unsupported type " ++ GoSyntaxNode typ)
  end.

End NodeRenderer.

(** [formatType] with [fuel] calls at hand on the deepest path. *)
Fixpoint formatTypeFuel (GoSyntaxNode : Node -> string) (fuel : nat)
    (typ : Node) : Outcome string :=
  match fuel with
  | O => OutOfFuel
  | S fuel =>
      pFormatTypeBody GoSyntaxNode (formatTypeFuel GoSyntaxNode fuel) typ
  end.

(** The depth of a node: the longest chain of nodes below one another,
    the function type of a literal counting as a node. *)
Section Depth.

Variable depth : Node -> nat.

Definition depthOfList (l : list Node) : nat :=
  List.fold_right (fun n acc => Nat.max (depth n) acc) 0%nat l.

Definition depthOfFields (fields : PFieldList) : nat :=
  match fields with
  | Some l =>
      List.fold_right
        (fun f acc =>
           Nat.max (match f with
                    | Some f => depth (PType f)
                    | None => 0%nat
                    end) acc)
        0%nat l
  | None => 0%nat
  end.

Definition depthOfFuncType (t : PFuncType_ Node) : nat :=
  Nat.max (depthOfFields (PTypeParams t))
          (Nat.max (depthOfFields (PParams t)) (depthOfFields (PResults t))).

End Depth.

Fixpoint depth (n : Node) : nat :=
  match n with
  | PNil | PTypedNil _ | PBadExpr | PIdent _ | PBasicLit _ _ => 1%nat
  | PEllipsis x | PParenExpr x | PSelectorExpr x _ | PStarExpr x
  | PUnaryExpr _ x | PChanType _ x => S (depth x)
  | PFuncLit None => 2%nat
  | PFuncLit (Some t) => S (S (depthOfFuncType depth t))
  | PFuncType t => S (depthOfFuncType depth t)
  | PCompositeLit x l | PIndexListExpr x l | PCallExpr x l =>
      S (Nat.max (depth x) (depthOfList depth l))
  | PIndexExpr x y | PTypeAssertExpr x y | PBinaryExpr x _ y
  | PKeyValueExpr x y | PArrayType x y | PMapType x y =>
      S (Nat.max (depth x) (depth y))
  | PSliceExpr x low high max _ =>
      S (Nat.max (Nat.max (depth x) (depth low))
                 (Nat.max (depth high) (depth max)))
  | PStructType fields | PInterfaceType fields =>
      S (depthOfFields depth fields)
  end.

(** The nodes with every pointer that [go/ast] documents as non-nil in
    place are the values of [Expr]; [node e] is [e] among all nodes. *)
Section NodeOfExpr.

Variable node : Expr -> Node.

Definition nodeOfField (f : Field) : option PField :=
  Some (mkPField (List.map Some (Names f)) (node (Type_ f))).

Definition nodeOfFields (l : list Field) : list (option PField) :=
  List.map nodeOfField l.

Definition nodeOfFuncType (t : FuncType_ Expr) : PFuncType_ Node :=
  mkPFuncType (option_map nodeOfFields (TypeParams t))
              (Some (nodeOfFields (Params t)))
              (option_map nodeOfFields (Results t)).

End NodeOfExpr.

Fixpoint node (e : Expr) : Node :=
  match e with
  | Nil => PNil
  | BadExpr => PBadExpr
  | Ident name => PIdent name
  | Ellipsis elt => PEllipsis (node elt)
  | BasicLit kind value => PBasicLit kind value
  | FuncLit t => PFuncLit (Some (nodeOfFuncType node t))
  | CompositeLit type elts => PCompositeLit (node type) (List.map node elts)
  | ParenExpr x => PParenExpr (node x)
  | SelectorExpr x sel => PSelectorExpr (node x) (Some sel)
  | IndexExpr x index => PIndexExpr (node x) (node index)
  | IndexListExpr x indices =>
      PIndexListExpr (node x) (List.map node indices)
  | SliceExpr x low high max slice3 =>
      PSliceExpr (node x) (node low) (node high) (node max) slice3
  | TypeAssertExpr x type => PTypeAssertExpr (node x) (node type)
  | CallExpr f args => PCallExpr (node f) (List.map node args)
  | StarExpr x => PStarExpr (node x)
  | UnaryExpr op x => PUnaryExpr op (node x)
  | BinaryExpr x op y => PBinaryExpr (node x) op (node y)
  | KeyValueExpr key value => PKeyValueExpr (node key) (node value)
  | ArrayType len elt => PArrayType (node len) (node elt)
  | StructType fields => PStructType (option_map (nodeOfFields node) fields)
  | FuncType t => PFuncType (nodeOfFuncType node t)
  | InterfaceType methods =>
      PInterfaceType (option_map (nodeOfFields node) methods)
  | MapType key value => PMapType (node key) (node value)
  | ChanType dir value => PChanType dir (node value)
  end.

(** The debug forms of the sample host, on nodes. *)
Definition sampleGoSyntaxNode (n : Node) : string :=
  match n with
  | PBadExpr => "&ast.BadExpr{From:0, To:0}"
  | PKeyValueExpr _ _ => "&ast.KeyValueExpr{}"
  | PTypedNil KBadExpr => "(*ast.BadExpr)(nil)"
  | PTypedNil KKeyValueExpr => "(*ast.KeyValueExpr)(nil)"
  | _ => "&ast.Node{}"
  end.

(** [&ast.FuncType{}], the function type with nothing set, and
    [func(a, b int) error]. *)
Definition emptyFuncType : Node := PFuncType (mkPFuncType None None None).

Definition sampleFuncType : Expr :=
  FuncType (mkFuncType None [mkField ["a"; "b"] (Ident "int")]
                       (Some [mkField [] (Ident "error")])).

(** * Properties *)

(** ** Panics and strings *)

Lemma bind_Some {A B : Type} (m : option A) (k : A -> option B) (b : B) :
  bind m k = Some b <-> exists a, m = Some a /\ k a = Some b.
Proof.
  destruct m as [a|]; simpl; split.
  - intros H. exists a. auto.
  - intros [a' [E H]]. inversion E. subst. exact H.
  - discriminate.
  - intros [a' [E _]]. discriminate.
Qed.

Lemma HasPrefix_star (s : string) :
  HasPrefix s "*" = true <-> exists t, s = String "*" t.
Proof.
  destruct s as [|c t]; simpl.
  - split; [discriminate | intros [t E]; discriminate].
  - rewrite andb_true_r, Ascii.eqb_eq. split.
    + intros ->. exists t. reflexivity.
    + intros [t' E]. inversion E. reflexivity.
Qed.

Lemma runes_empty : runes "" = [].
Proof. reflexivity. Qed.

Lemma runes_cons (c : ascii) (s : string) :
  exists r rs, runes (String c s) = r :: rs.
Proof. unfold runes. simpl. eauto. Qed.

Lemma runes_nil_iff (s : string) : runes s = [] <-> s = "".
Proof.
  split.
  - destruct s as [|c t]; [reflexivity|].
    destruct (runes_cons c t) as [r [rs E]]. rewrite E. discriminate.
  - intros ->. reflexivity.
Qed.

(** The pointer marker is one byte and one rune, U+002A. *)
Lemma runes_star (t : string) : runes (String "*" t) = 42 :: runes t.
Proof. reflexivity. Qed.

Lemma stripStar_star (t : string) : stripStar (String "*" t) = t.
Proof.
  reflexivity.
Qed.

Lemma stripStar_other (s : string) : HasPrefix s "*" = false -> stripStar s = s.
Proof. unfold stripStar. intros ->. reflexivity. Qed.

(** ** The visibility classifier *)

Section Classifier.

Context {host : Host}.

(** What [isUpper0] computes: the class of the first character that is
    left after the marker, and a panic when nothing is left. *)
Lemma isUpper0_stripStar (s : string) :
  isUpper0 s = match firstChar (stripStar s) with
               | Some r => Some (IsUpper r)
               | None => None
               end.
Proof.
  unfold isUpper0, firstChar.
  destruct (HasPrefix s "*") eqn:E.
  - apply HasPrefix_star in E. destruct E as [t ->].
    rewrite stripStar_star, runes_star. simpl.
    destruct (runes t); reflexivity.
  - rewrite (stripStar_other s E).
    destruct (runes s); reflexivity.
Qed.

(** C4. For a name that is not empty, and that keeps a character when it
    begins with the pointer marker, the classifier returns, and returns
    true exactly when the first character after one leading marker is
    an upper-case letter for [unicode.IsUpper]. *)
Theorem isUpper0_first_character (s : string) :
  s <> "" ->
  (HasPrefix s "*" = true -> stripStar s <> "") ->
  exists r, firstChar (stripStar s) = Some r
            /\ isUpper0 s = Some (IsUpper r)
            /\ (isUpper0 s = Some true <-> IsUpper r = true).
Proof.
  intros Hne Hstar.
  assert (Hleft : stripStar s <> "").
  { destruct (HasPrefix s "*") eqn:E; [auto|].
    rewrite (stripStar_other s E). exact Hne. }
  rewrite isUpper0_stripStar. unfold firstChar.
  destruct (runes (stripStar s)) as [|r rs] eqn:R.
  - apply runes_nil_iff in R. contradiction.
  - exists r. simpl. repeat split.
    + intros H. inversion H. reflexivity.
    + intros ->. reflexivity.
Qed.

(** C10. [isUpper0] indexes the runes unchecked: it returns exactly on
    the strings that keep a character after one leading marker, and it
    panics on the empty string and on the marker alone, and only there. *)
Theorem isUpper0_panics_iff (s : string) :
  (isUpper0 s <> None <-> stripStar s <> "")
  /\ (isUpper0 s = None <-> s = "" \/ s = "*")
  /\ isUpper0 "" = None
  /\ isUpper0 "*" = None.
Proof.
  assert (Hnone : isUpper0 s = None <-> stripStar s = "").
  { rewrite isUpper0_stripStar. unfold firstChar.
    destruct (runes (stripStar s)) as [|r rs] eqn:R; simpl.
    - apply runes_nil_iff in R. split; auto.
    - split; [discriminate|]. intros E. rewrite E in R. discriminate. }
  repeat split.
  - intros H E. apply H. apply Hnone. exact E.
  - intros H E. apply H. apply Hnone. exact E.
  - intros H. apply Hnone in H.
    destruct (HasPrefix s "*") eqn:E.
    + apply HasPrefix_star in E. destruct E as [t ->].
      rewrite stripStar_star in H. subst t. right. reflexivity.
    + rewrite (stripStar_other s E) in H. left. exact H.
  - intros [-> | ->]; reflexivity.
Qed.

End Classifier.

(** ** The renderer *)

Lemma string_app_assoc (a b c : string) : (a ++ b) ++ c = a ++ (b ++ c).
Proof. induction a as [|x a IH]; simpl; [reflexivity | now rewrite IH]. Qed.

Lemma string_app_nil_r (a : string) : a ++ "" = a.
Proof. induction a as [|x a IH]; simpl; [reflexivity | now rewrite IH]. Qed.

Lemma string_length_app (a b : string) :
  String.length (a ++ b) = (String.length a + String.length b)%nat.
Proof. induction a as [|x a IH]; simpl; [reflexivity | now rewrite IH]. Qed.

Lemma isNil_true (e : Expr) : isNil e = true -> e = Nil.
Proof. destruct e; simpl; intros H; try discriminate; reflexivity. Qed.

(** Induction on nodes that reaches the nodes inside lists and field
    lists. *)
Section ExprInduction.

Variable P : Expr -> Prop.

Let PFields (l : list Field) : Prop := Forall (fun f => P (Type_ f)) l.

Let POptFields (o : option FieldList) : Prop :=
  match o with
  | Some l => PFields l
  | None => True
  end.

Let PFuncType (t : FuncType_ Expr) : Prop :=
  POptFields (TypeParams t) /\ PFields (Params t) /\ POptFields (Results t).

Hypothesis HNil : P Nil.
Hypothesis HBadExpr : P BadExpr.
Hypothesis HIdent : forall name, P (Ident name).
Hypothesis HEllipsis : forall elt, P elt -> P (Ellipsis elt).
Hypothesis HBasicLit : forall kind value, P (BasicLit kind value).
Hypothesis HFuncLit : forall t, PFuncType t -> P (FuncLit t).
Hypothesis HCompositeLit :
  forall type elts, P type -> Forall P elts -> P (CompositeLit type elts).
Hypothesis HParenExpr : forall x, P x -> P (ParenExpr x).
Hypothesis HSelectorExpr : forall x sel, P x -> P (SelectorExpr x sel).
Hypothesis HIndexExpr : forall x index, P x -> P index -> P (IndexExpr x index).
Hypothesis HIndexListExpr :
  forall x indices, P x -> Forall P indices -> P (IndexListExpr x indices).
Hypothesis HSliceExpr :
  forall x low high max slice3,
    P x -> P low -> P high -> P max -> P (SliceExpr x low high max slice3).
Hypothesis HTypeAssertExpr :
  forall x type, P x -> P type -> P (TypeAssertExpr x type).
Hypothesis HCallExpr :
  forall f args, P f -> Forall P args -> P (CallExpr f args).
Hypothesis HStarExpr : forall x, P x -> P (StarExpr x).
Hypothesis HUnaryExpr : forall op x, P x -> P (UnaryExpr op x).
Hypothesis HBinaryExpr : forall x op y, P x -> P y -> P (BinaryExpr x op y).
Hypothesis HKeyValueExpr :
  forall key value, P key -> P value -> P (KeyValueExpr key value).
Hypothesis HArrayType : forall len elt, P len -> P elt -> P (ArrayType len elt).
Hypothesis HStructType : forall fields, POptFields fields -> P (StructType fields).
Hypothesis HFuncType : forall t, PFuncType t -> P (FuncType t).
Hypothesis HInterfaceType :
  forall methods, POptFields methods -> P (InterfaceType methods).
Hypothesis HMapType : forall key value, P key -> P value -> P (MapType key value).
Hypothesis HChanType : forall dir value, P value -> P (ChanType dir value).

Lemma Expr_nested_ind : forall e : Expr, P e.
Proof.
  fix IH 1.
  assert (IHlist : forall l : list Expr, Forall P l).
  { fix IHl 1. intros [|x l]; constructor; [apply IH | apply IHl]. }
  assert (IHfields : forall l : list Field, PFields l).
  { fix IHl 1. intros [|[names type] l]; constructor;
      [apply IH | apply IHl]. }
  assert (IHopt : forall o : option FieldList, POptFields o).
  { intros [l|]; simpl; [apply IHfields | exact I]. }
  assert (IHfunc : forall t : FuncType_ Expr, PFuncType t).
  { intros [tp ps rs]. split; [apply IHopt | split; [apply IHfields | apply IHopt]]. }
  intros [ | | name | elt | kind value | t | type elts | x | x sel
         | x index | x indices | x low high max slice3 | x type | f args
         | x | op x | x op y | key value | len elt | fields | t | methods
         | key value | dir value ].
  - apply HNil.
  - apply HBadExpr.
  - apply HIdent.
  - apply HEllipsis, IH.
  - apply HBasicLit.
  - apply HFuncLit, IHfunc.
  - apply HCompositeLit; [apply IH | apply IHlist].
  - apply HParenExpr, IH.
  - apply HSelectorExpr, IH.
  - apply HIndexExpr; apply IH.
  - apply HIndexListExpr; [apply IH | apply IHlist].
  - apply HSliceExpr; apply IH.
  - apply HTypeAssertExpr; apply IH.
  - apply HCallExpr; [apply IH | apply IHlist].
  - apply HStarExpr, IH.
  - apply HUnaryExpr, IH.
  - apply HBinaryExpr; apply IH.
  - apply HKeyValueExpr; apply IH.
  - apply HArrayType; apply IH.
  - apply HStructType, IHopt.
  - apply HFuncType, IHfunc.
  - apply HInterfaceType, IHopt.
  - apply HMapType; apply IH.
  - apply HChanType, IH.
Qed.

End ExprInduction.

Lemma fieldsLoop_ext (f g : Expr -> string) (l : list Field) :
  Forall (fun fld => f (Type_ fld) = g (Type_ fld)) l ->
  forall n i s, fieldsLoop f n i l s = fieldsLoop g n i l s.
Proof.
  induction 1 as [|fld l Hfld _ IH]; intros n i s; simpl.
  - reflexivity.
  - rewrite Hfld. apply IH.
Qed.

Lemma formatFuncTypeWith_ext (f g : Expr -> string) (t : FuncType_ Expr) :
  Forall (fun fld => f (Type_ fld) = g (Type_ fld)) (Params t) ->
  match Results t with
  | Some l => Forall (fun fld => f (Type_ fld) = g (Type_ fld)) l
  | None => True
  end ->
  formatFuncTypeWith f t = formatFuncTypeWith g t.
Proof.
  intros Hp Hr. unfold formatFuncTypeWith, formatFieldsWith.
  rewrite (fieldsLoop_ext f g _ Hp).
  destruct (Results t) as [l|]; simpl; [|reflexivity].
  unfold formatFieldsWith. rewrite (fieldsLoop_ext f g _ Hr). reflexivity.
Qed.

(** The rendering reads the host only to print the nodes it has no case
    for. *)
Lemma formatType_host_independent (h1 h2 : Host) :
  (forall e, enumerated e = false ->
             @GoSyntaxExpr h1 e = @GoSyntaxExpr h2 e) ->
  forall e, @formatType h1 e = @formatType h2 e.
Proof.
  intros Hdbg e.
  induction e using Expr_nested_ind; simpl;
    try reflexivity;
    try (rewrite ?IHe, ?IHe1, ?IHe2, ?IHe3, ?IHe4; reflexivity).
  - rewrite (Hdbg BadExpr); reflexivity.
  - apply formatFuncTypeWith_ext; tauto.
  - rewrite IHe, (map_ext_Forall _ _ H). reflexivity.
  - rewrite (Hdbg (KeyValueExpr e1 e2)); reflexivity.
  - apply formatFuncTypeWith_ext; tauto.
Qed.

Section Renderer.

Context {host : Host}.

Lemma optional_text (e : Expr) (s : string) :
  (if negb (isNil e) then s ++ formatType e else s) = s ++ formatType e.
Proof.
  destruct (isNil e) eqn:E; simpl; [|reflexivity].
  apply isNil_true in E. subst e. simpl. now rewrite string_app_nil_r.
Qed.

Lemma needPar_needsParens (l : FieldList) :
  ((1 <? List.length l)%nat
   || ((List.length l =? 1)%nat
       && match l with
          | f0 :: _ => (0 <? List.length (Names f0))%nat
          | [] => false
          end)) = true <-> needsParens l.
Proof.
  unfold needsParens. destruct l as [|f0 [|f1 l]]; simpl.
  - split; [discriminate|]. intros [H | [f [E _]]]; [lia | discriminate].
  - destruct (Names f0) as [|n ns] eqn:N; simpl.
    + split; [discriminate|].
      intros [H | [f [E H]]]; [lia|]. inversion E. subst f. contradiction.
    + split; [|reflexivity]. intros _. right. exists f0.
      split; [reflexivity|]. rewrite N. discriminate.
  - split; [|reflexivity]. intros _. left. lia.
Qed.

End Renderer.

(** ** The renderer on nodes with nil pointers *)

Lemma halts_bind {A B : Type} (m : Outcome A) (k : A -> Outcome B) :
  Halts m -> (forall a, Halts (k a)) -> Halts (bindO m k).
Proof.
  unfold Halts. destruct m as [a| |]; simpl; intros Hm Hk;
    [apply Hk | discriminate | contradiction].
Qed.

Lemma depth_pos (n : Node) : (1 <= depth n)%nat.
Proof. destruct n as [ | | | | | | [t|] | | | | | | | | | | | | | | | | | | ]; simpl; lia. Qed.

Lemma depth_in_list (l : list Node) (x : Node) :
  In x l -> (depth x <= depthOfList depth l)%nat.
Proof.
  induction l as [|y l IH]; simpl; [contradiction|].
  intros [-> | H]; [lia | specialize (IH H); lia].
Qed.

Lemma depth_in_fields (l : list (option PField)) (f : PField) :
  In (Some f) l -> (depth (PType f) <= depthOfFields depth (Some l))%nat.
Proof.
  induction l as [|g l IH]; simpl; [contradiction|].
  intros [-> | H]; [lia | specialize (IH H); simpl in IH; lia].
Qed.

Section NodeHalts.

Variable GoSyntaxNode : Node -> string.
Variable call : Node -> Outcome string.

Lemma pNamesLoop_halts (names : list (option string)) :
  forall n j s, Halts (pNamesLoop n j names s).
Proof.
  induction names as [|[name|] names IH]; intros n j s; simpl;
    [discriminate | apply IH | discriminate].
Qed.

Lemma pFieldsLoop_halts (l : list (option PField)) :
  (forall f, In (Some f) l -> Halts (call (PType f))) ->
  forall n i s, Halts (pFieldsLoop call n i l s).
Proof.
  induction l as [|[f|] l IH]; intros H n i s; simpl;
    [discriminate | | discriminate].
  apply halts_bind; [apply pNamesLoop_halts|]. intros s1.
  apply halts_bind; [apply H; left; reflexivity|]. intros t.
  apply IH. intros g Hg. apply H. right. exact Hg.
Qed.

Lemma pFormatFields_halts (fields : PFieldList) (bound : nat) :
  (forall m, (depth m < bound)%nat -> Halts (call m)) ->
  (depthOfFields depth fields < bound)%nat ->
  Halts (pFormatFields call fields).
Proof.
  intros H Hd. destruct fields as [l|]; simpl; [|discriminate].
  apply pFieldsLoop_halts. intros f Hf. apply H.
  pose proof (depth_in_fields l f Hf). lia.
Qed.

Lemma pFormatFuncResults_halts (fields : PFieldList) (bound : nat) :
  (forall m, (depth m < bound)%nat -> Halts (call m)) ->
  (depthOfFields depth fields < bound)%nat ->
  Halts (pFormatFuncResults call fields).
Proof.
  intros H Hd. unfold pFormatFuncResults.
  destruct fields as [l|]; [|discriminate].
  apply halts_bind.
  - destruct (1 <? List.length l)%nat; [discriminate|].
    destruct (List.length l =? 1)%nat; [|discriminate].
    destruct l as [|[f0|] l]; discriminate.
  - intros needPar. apply halts_bind; [|intros; discriminate].
    eapply pFormatFields_halts; eassumption.
Qed.

Lemma pIndicesLoop_halts (indices : list Node) :
  (forall x, In x indices -> Halts (call x)) ->
  forall typ, Halts (pIndicesLoop call indices typ).
Proof.
  induction indices as [|x l IH]; intros H typ; simpl; [discriminate|].
  apply halts_bind; [apply H; left; reflexivity|]. intros t.
  apply IH. intros y Hy. apply H. right. exact Hy.
Qed.

(** One call ends when the calls it makes on the nodes below end. *)
Lemma pFormatTypeBody_halts (typ : Node) :
  (forall m, (depth m < depth typ)%nat -> Halts (call m)) ->
  Halts (pFormatTypeBody GoSyntaxNode call typ).
Proof.
  intros H.
  assert (Hcall : forall m, (depth m < depth typ)%nat -> Halts (call m))
    by exact H.
  destruct typ as [ | kind | | name | elt | kind value | [t|] | type elts | x
                  | x [sel|] | x index | x indices | x low high max slice3
                  | x type | f args | x | op x | x op y | key value
                  | len elt | fields | t | methods | key value | dir value ];
    cbn [pFormatTypeBody];
    try discriminate;
    try (destruct kind; discriminate);
    try (repeat (apply halts_bind; [apply H; simpl; lia | intros ?]);
         discriminate).
  - apply H. simpl. lia.
  - apply H. simpl. lia.
  - apply halts_bind.
    + apply pIndicesLoop_halts. intros y Hy. apply H. simpl.
      pose proof (depth_in_list indices y Hy). lia.
    + intros typ. apply halts_bind; [apply H; simpl; lia|].
      intros; discriminate.
  - apply halts_bind; [apply H; simpl; lia|]. intros s.
    apply halts_bind.
    { destruct (negb (isPNil low)); [|discriminate].
      apply halts_bind; [apply H; simpl; lia | intros; discriminate]. }
    intros s1. apply halts_bind.
    { destruct (negb (isPNil high)); [|discriminate].
      apply halts_bind; [apply H; simpl; lia | intros; discriminate]. }
    intros s2. apply halts_bind; [|intros; discriminate].
    destruct (negb (isPNil max)); [|discriminate].
    apply halts_bind; [apply H; simpl; lia | intros; discriminate].
  - apply halts_bind.
    + apply (pFormatFields_halts _ (depth (PFuncType t)) H).
      simpl. unfold depthOfFuncType. lia.
    + intros ps. apply halts_bind; [|intros; discriminate].
      apply (pFormatFuncResults_halts _ (depth (PFuncType t)) H).
      simpl. unfold depthOfFuncType. lia.
Qed.

End NodeHalts.

(** With as much fuel as the node is deep, the run ends. *)
Lemma formatTypeFuel_halts (GoSyntaxNode : Node -> string) (fuel : nat) :
  forall typ, (depth typ <= fuel)%nat ->
              Halts (formatTypeFuel GoSyntaxNode fuel typ).
Proof.
  induction fuel as [|fuel IH]; intros typ Hd.
  - pose proof (depth_pos typ). lia.
  - cbn [formatTypeFuel]. apply pFormatTypeBody_halts.
    intros m Hm. apply IH. lia.
Qed.

Lemma isPNil_node (e : Expr) : isPNil (node e) = isNil e.
Proof. destruct e; reflexivity. Qed.

Lemma depth_in_nodes (l : list Expr) (x : Expr) :
  In x l -> (depth (node x) <= depthOfList depth (List.map node l))%nat.
Proof. intros H. apply depth_in_list, in_map, H. Qed.

Lemma depth_in_nodeOfFields (l : list Field) (f : Field) :
  In f l ->
  (depth (node (Type_ f))
   <= depthOfFields depth (Some (nodeOfFields node l)))%nat.
Proof.
  intros H.
  apply (depth_in_fields (nodeOfFields node l)
           (mkPField (List.map Some (Names f)) (node (Type_ f)))).
  unfold nodeOfFields.
  apply (in_map (nodeOfField node) l f H).
Qed.

Lemma pNamesLoop_returns (call : Node -> Outcome string) (names : list string) :
  forall n j s,
    pNamesLoop n j (List.map Some names) s = Returns (namesLoop n j names s).
Proof.
  induction names as [|name names IH]; intros n j s; simpl;
    [reflexivity | apply IH].
Qed.

Section NodeReturns.

Context {host : Host}.

Variable GoSyntaxNode : Node -> string.
Variable call : Node -> Outcome string.

Lemma pFieldsLoop_returns (l : list Field) :
  (forall f, In f l -> call (node (Type_ f)) = Returns (formatType (Type_ f))) ->
  forall n i s,
    pFieldsLoop call n i (nodeOfFields node l) s
    = Returns (fieldsLoop formatType n i l s).
Proof.
  induction l as [|f l IH]; intros H n i s; simpl; [reflexivity|].
  rewrite length_map, (pNamesLoop_returns call). simpl.
  rewrite (H f (or_introl eq_refl)). simpl.
  apply IH. intros g Hg. apply H. right. exact Hg.
Qed.

Lemma pFormatFields_returns (l : list Field) :
  (forall f, In f l -> call (node (Type_ f)) = Returns (formatType (Type_ f))) ->
  pFormatFields call (Some (nodeOfFields node l)) = Returns (formatFields l).
Proof.
  intros H. unfold pFormatFields, formatFields, formatFieldsWith, nodeOfFields.
  rewrite length_map. apply (pFieldsLoop_returns l H).
Qed.

Lemma pFormatFuncResults_returns (r : option (list Field)) :
  (forall l f, r = Some l -> In f l ->
               call (node (Type_ f)) = Returns (formatType (Type_ f))) ->
  pFormatFuncResults call (option_map (nodeOfFields node) r)
  = Returns (formatFuncResults r).
Proof.
  intros H. destruct r as [l|]; [|reflexivity].
  unfold pFormatFuncResults, formatFuncResults, formatFuncResultsWith.
  cbn [option_map].
  rewrite (pFormatFields_returns l (fun f => H l f eq_refl)).
  unfold nodeOfFields. rewrite length_map.
  destruct l as [|f0 [|f1 l]]; cbn [List.map List.length nodeOfField PNames];
    rewrite ?length_map; simpl;
    try (destruct (0 <? List.length (Names f0))%nat); reflexivity.
Qed.

Lemma pIndicesLoop_returns (l : list Expr) :
  (forall x, In x l -> call (node x) = Returns (formatType x)) ->
  forall typ,
    pIndicesLoop call (List.map node l) typ
    = Returns (typ ++ List.map formatType l)%list.
Proof.
  induction l as [|x l IH]; intros H typ; simpl.
  - now rewrite app_nil_r.
  - rewrite (H x (or_introl eq_refl)). simpl.
    rewrite IH by (intros y Hy; apply H; right; exact Hy).
    now rewrite <- app_assoc.
Qed.

Lemma optional_call (e : Expr) (s : string) :
  call (node e) = Returns (formatType e) ->
  (if negb (isPNil (node e))
   then t <~ call (node e) ;; Returns (s ++ t)
   else Returns s)
  = Returns (if negb (isNil e) then s ++ formatType e else s).
Proof.
  intros H. rewrite isPNil_node.
  destruct (negb (isNil e)); [rewrite H|]; reflexivity.
Qed.

(** On a node with every pointer in place one call returns the text of
    [formatType], when the calls it makes on the nodes below do. *)
Lemma pFormatTypeBody_returns (e : Expr) :
  (forall e', enumerated e' = false ->
              GoSyntaxNode (node e') = GoSyntaxExpr e') ->
  (forall e', (depth (node e') < depth (node e))%nat ->
              call (node e') = Returns (formatType e')) ->
  pFormatTypeBody GoSyntaxNode call (node e) = Returns (formatType e).
Proof.
  intros Hdbg H.
  destruct e as [ | | name | elt | kind value | t | type elts | x | x sel
                | x index | x indices | x low high max slice3 | x type
                | f args | x | op x | x op y | key value | len elt | fields
                | t | methods | key value | dir value ];
    cbn [node pFormatTypeBody formatType];
    try reflexivity;
    try (rewrite ?(H x), ?(H elt), ?(H type), ?(H index), ?(H f), ?(H y),
           ?(H len), ?(H key), ?(H value) by (simpl; lia);
         reflexivity).
  - rewrite <- (Hdbg BadExpr eq_refl). reflexivity.
  - apply (H (FuncType t)). simpl. lia.
  - rewrite pIndicesLoop_returns
      by (intros y Hy; apply H; simpl;
          pose proof (depth_in_nodes indices y Hy); lia).
    simpl. rewrite (H x) by (simpl; lia). reflexivity.
  - rewrite (H x) by (simpl; lia). cbn [bindO].
    rewrite (optional_call low) by (apply H; simpl; lia). cbn [bindO].
    rewrite (optional_call high) by (apply H; simpl; lia). cbn [bindO].
    rewrite (optional_call max) by (apply H; simpl; lia). reflexivity.
  - rewrite <- (Hdbg (KeyValueExpr key value) eq_refl). reflexivity.
  - assert (Hp : forall g, In g (Params t) ->
                       call (node (Type_ g)) = Returns (formatType (Type_ g))).
    { intros g Hg. apply H.
      pose proof (depth_in_nodeOfFields (Params t) g Hg) as D.
      cbn [node depth]. unfold depthOfFuncType, nodeOfFuncType.
      cbn [PParams PResults PTypeParams]. lia. }
    assert (Hr : forall l g, Results t = Some l -> In g l ->
                             call (node (Type_ g))
                             = Returns (formatType (Type_ g))).
    { intros l g Hl Hg. apply H.
      pose proof (depth_in_nodeOfFields l g Hg) as D.
      cbn [node depth]. unfold depthOfFuncType, nodeOfFuncType.
      cbn [PParams PResults PTypeParams]. rewrite Hl. cbn [option_map]. lia. }
    unfold nodeOfFuncType. cbn [PParams PResults].
    rewrite (pFormatFields_returns (Params t) Hp).
    rewrite (pFormatFuncResults_returns (Results t) Hr). reflexivity.
Qed.

End NodeReturns.

Section NodeRuns.

Context {host : Host}.

Variable GoSyntaxNode : Node -> string.

Lemma formatTypeFuel_returns (fuel : nat) :
  (forall e', enumerated e' = false ->
              GoSyntaxNode (node e') = GoSyntaxExpr e') ->
  forall e, (depth (node e) <= fuel)%nat ->
            formatTypeFuel GoSyntaxNode fuel (node e) = Returns (formatType e).
Proof.
  intros Hdbg. induction fuel as [|fuel IH]; intros e Hd.
  - pose proof (depth_pos (node e)). lia.
  - cbn [formatTypeFuel]. apply pFormatTypeBody_returns; [exact Hdbg|].
    intros e' He'. apply IH. lia.
Qed.


End NodeRuns.



Section Clauses.

Context {host : Host}.

(** C6. The result clause is empty for an absent result list; for a
    present list it is a space and the field groups, in parentheses
    exactly when the list has more than one field or its single field
    carries a name.  One unnamed [error] gives [" error"], and
    [(n int, err error)] gives [" (n int, err error)"]. *)
Theorem formatFuncResults_clause :
  formatFuncResults None = ""
  /\ (forall l : FieldList,
        needsParens l ->
        formatFuncResults (Some l) = " (" ++ formatFields l ++ ")")
  /\ (forall l : FieldList,
        ~ needsParens l ->
        formatFuncResults (Some l) = " " ++ formatFields l)
  /\ formatFuncResults (Some [mkField [] (Ident "error")]) = " error"
  /\ formatFuncResults
       (Some [mkField ["n"] (Ident "int"); mkField ["err"] (Ident "error")])
     = " (n int, err error)".
Proof.
  split; [reflexivity|].
  split; [|split; [|split; reflexivity]].
  - intros l H. apply needPar_needsParens in H.
    unfold formatFuncResults, formatFuncResultsWith. rewrite H.
    fold (formatFields l). simpl. reflexivity.
  - intros l H. unfold formatFuncResults, formatFuncResultsWith.
    destruct (_ || _) eqn:E.
    + apply needPar_needsParens in E. contradiction.
    + reflexivity.
Qed.

(** C7. An array or slice type renders as the bracketed length, empty
    when there is none, and the element.  A slice expression renders as
    the operand and the bounds in brackets, an absent bound leaving
    nothing, with a second colon exactly when the three-index flag is
    set. *)
Theorem formatType_array_slice :
  (forall len elt : Expr,
     formatType (ArrayType len elt)
     = "[" ++ formatType len ++ "]" ++ formatType elt)
  /\ formatType Nil = ""
  /\ formatType (ArrayType (BasicLit Token.INT "4") (Ident "int")) = "[4]int"
  /\ (forall (x low high max : Expr) (slice3 : bool),
        formatType (SliceExpr x low high max slice3)
        = formatType x ++ "[" ++ formatType low ++ ":" ++ formatType high
          ++ (if slice3 then ":" else "") ++ formatType max ++ "]")
  /\ (forall x low high : Expr,
        formatType (SliceExpr x low high Nil false)
        = formatType x ++ "[" ++ formatType low ++ ":" ++ formatType high
          ++ "]")
  /\ (forall x low high max : Expr,
        formatType (SliceExpr x low high max true)
        = formatType x ++ "[" ++ formatType low ++ ":" ++ formatType high
          ++ ":" ++ formatType max ++ "]")
  /\ formatType (SliceExpr (Ident "x") Nil (BasicLit Token.INT "3") Nil false)
     = "x[:3]"
  /\ formatType (SliceExpr (Ident "x") (BasicLit Token.INT "1")
                           (BasicLit Token.INT "2") (BasicLit Token.INT "3")
                           true)
     = "x[1:2:3]".
Proof.
  assert (Hslice : forall (x low high max : Expr) (slice3 : bool),
             formatType (SliceExpr x low high max slice3)
             = formatType x ++ "[" ++ formatType low ++ ":" ++ formatType high
               ++ (if slice3 then ":" else "") ++ formatType max ++ "]").
  { intros x low high max slice3.
    change (formatType (SliceExpr x low high max slice3))
      with (let s := formatType x in
            let s := s ++ "[" in
            let s := if negb (isNil low) then s ++ formatType low else s in
            let s := s ++ ":" in
            let s := if negb (isNil high) then s ++ formatType high else s in
            let s := if slice3 then s ++ ":" else s in
            let s := if negb (isNil max) then s ++ formatType max else s in
            s ++ "]").
    cbv zeta. rewrite !optional_text.
    destruct slice3; rewrite ?string_app_assoc; simpl; reflexivity. }
  repeat split; try reflexivity.
  - exact Hslice.
  - intros x low high. rewrite Hslice. reflexivity.
  - intros x low high max. rewrite Hslice. reflexivity.
Qed.

End Clauses.

(** ** The declaration formatter and the file exporter *)

Section Declarations.

Context {host : Host}.

Lemma append_assoc (res out : list string) (s : string) :
  (append res s ++ out)%list = (res ++ s :: out)%list.
Proof. unfold append. rewrite <- app_assoc. reflexivity. Qed.

(** The lines collected so far are kept, and the loop adds to them. *)
Lemma declsLoop_app (decls : list Decl) :
  forall res,
    declsLoop decls res
    = (out <- declsLoop decls [] ;; Some (res ++ out)%list).
Proof.
  induction decls as [|xdecl rest IH]; intros res; simpl.
  - now rewrite app_nil_r.
  - destruct xdecl as [|decl|decl].
    + apply IH.
    + destruct (exported decl) as [[|]|]; simpl; [|apply IH|reflexivity].
      rewrite (IH (append res _)), (IH (append [] _)).
      destruct (declsLoop rest []) as [out|]; simpl; [|reflexivity].
      now rewrite append_assoc.
    + destruct (formatGenDecl decl) as [s|]; simpl; [|reflexivity].
      destruct (negb (String.eqb s "")); [|apply IH].
      rewrite (IH (append res _)), (IH (append [] _)).
      destruct (declsLoop rest []) as [out|]; simpl; [|reflexivity].
      now rewrite append_assoc.
Qed.

Lemma exported_method (r : string) (ty : Expr) (name : string)
    (ft : FuncType_ Expr) :
  exported (method r ty name ft) = Some true
  <-> isUpper0 (formatType ty) = Some true /\ isUpper0 name = Some true.
Proof.
  unfold exported, method. simpl.
  destruct (isUpper0 (formatType ty)) as [[|]|]; simpl.
  - split; [intros H; split; [reflexivity | exact H] | intros [_ H]; exact H].
  - split; [discriminate | intros [H _]; discriminate].
  - split; [discriminate | intros [H _]; discriminate].
Qed.

Lemma formatFuncDecl_method (r : string) (ty : Expr) (name : string)
    (ft : FuncType_ Expr) :
  formatFuncDecl (method r ty name ft)
  = "func (" ++ r ++ " " ++ formatType ty ++ ") " ++ signatureText name ft.
Proof.
  unfold formatFuncDecl, method, signatureText. simpl.
  destruct (TypeParams ft) as [tp|]; simpl;
    rewrite ?string_app_assoc; simpl;
    rewrite ?string_app_assoc; simpl; reflexivity.
Qed.

End Declarations.

Section Exporter.

Context {host : Host}.

Lemma printGoFileExport_single (path : string) (decl : FuncDecl) :
  printGoFileExport path (mkFile [DeclFunc decl])
  = (b <- exported decl ;;
     if b then Some [printFileName path; formatFuncDecl decl; ""]
     else Some []).
Proof.
  unfold printGoFileExport. simpl.
  destruct (exported decl) as [[|]|]; reflexivity.
Qed.

(** C3. A method whose receiver is one field with one name is reported
    exactly when the classifier accepts the rendered receiver type and
    the method name; it is then rendered with its receiver in front.
    [Foo] on [bar] is left out, [Foo] on [*Bar] gives
    [func (r *Bar) Foo()]. *)
Theorem method_reported_iff (r : string) (ty : Expr) (name : string)
    (ft : FuncType_ Expr) (path : string) :
  formatFuncDecl (method r ty name ft)
  = "func (" ++ r ++ " " ++ formatType ty ++ ") " ++ signatureText name ft
  /\ (printGoFileExport path (mkFile [DeclFunc (method r ty name ft)])
      = Some [printFileName path; formatFuncDecl (method r ty name ft); ""]
      <-> isUpper0 (formatType ty) = Some true /\ isUpper0 name = Some true)
  /\ (forall rest res,
        isUpper0 (formatType ty) = Some true /\ isUpper0 name = Some true ->
        declsLoop (DeclFunc (method r ty name ft) :: rest) res
        = declsLoop rest (append res (formatFuncDecl (method r ty name ft))))
  /\ (forall rest res,
        exported (method r ty name ft) = Some false ->
        declsLoop (DeclFunc (method r ty name ft) :: rest) res
        = declsLoop rest res)
  /\ printGoFileExport path
       (mkFile [DeclFunc (method "r" (Ident "bar") "Foo"
                                 (mkFuncType None [] None))])
     = Some []
  /\ printGoFileExport path
       (mkFile [DeclFunc (method "r" (StarExpr (Ident "Bar")) "Foo"
                                 (mkFuncType None [] None))])
     = Some [printFileName path; "func (r *Bar) Foo()"; ""].
Proof.
  split; [apply formatFuncDecl_method|].
  split; [|split; [|split; [|split; reflexivity]]].
  - rewrite printGoFileExport_single, <- (exported_method r ty name ft).
    destruct (exported (method r ty name ft)) as [[|]|]; simpl.
    + split; intros _; reflexivity.
    + split; discriminate.
    + split; discriminate.
  - intros rest res H. apply (exported_method r ty name ft) in H.
    cbn [declsLoop]. rewrite H. reflexivity.
  - intros rest res H. cbn [declsLoop]. rewrite H. reflexivity.
Qed.

(** C1, as the code has it. A function declaration whose receiver list
    is one field with more than one name, and whose rendered receiver
    type and name the classifier accepts, gives the diagnostic line in
    place of its rendering; the declarations after it are processed and
    their lines follow it. *)
Theorem strange_receiver_field_diagnostic (decl : FuncDecl) (field : Field)
    (rest : list Decl) (lines : list string) (path : string) :
  Recv decl = Some [field] ->
  (1 < List.length (Names field))%nat ->
  isUpper0 (formatType (Type_ field)) = Some true ->
  isUpper0 (Name decl) = Some true ->
  declsLoop rest [] = Some lines ->
  formatFuncDecl decl
  = "strange receiver field for " ++ Name decl ++ ": " ++ GoSyntaxField field
  /\ (forall res,
        declsLoop (DeclFunc decl :: rest) res
        = declsLoop rest (append res (formatFuncDecl decl)))
  /\ printGoFileExport path (mkFile (DeclFunc decl :: rest))
     = Some (printFileName path :: formatFuncDecl decl
             :: (lines ++ [""])%list).
Proof.
  intros Hrecv Hnames Hty Hname Hrest.
  assert (Hexp : exported decl = Some true).
  { unfold exported. rewrite Hrecv, Hty. simpl. exact Hname. }
  assert (Hloop : forall res,
             declsLoop (DeclFunc decl :: rest) res
             = declsLoop rest (append res (formatFuncDecl decl))).
  { intros res. simpl. rewrite Hexp. reflexivity. }
  split; [|split; [exact Hloop|]].
  - unfold formatFuncDecl. rewrite Hrecv.
    destruct (Names field) as [|n1 [|n2 ns]]; simpl in Hnames;
      [lia | lia | reflexivity].
  - unfold printGoFileExport. cbn [Decls]. rewrite Hloop, declsLoop_app, Hrest.
    reflexivity.
Qed.

End Exporter.

(** C1, against the claim as the specification words it: a receiver list
    with no field, or with two fields, makes [exported] panic, so the
    run is aborted with no line printed and the type declared after it
    is never reached; and a receiver field with two names on a method
    the classifier rejects gives no diagnostic line at all. *)
Lemma strange_receiver_aborts :
  @printGoFileExport Sample.host "/p/f.go"
    (mkFile [DeclFunc Sample.fooNoReceiver; Sample.typeBaz]) = None
  /\ @printGoFileExport Sample.host "/p/f.go"
       (mkFile [DeclFunc Sample.fooTwoReceivers; Sample.typeBaz]) = None
  /\ @printGoFileExport Sample.host "/p/f.go"
       (mkFile [DeclFunc Sample.fooTwoNamesHidden; Sample.typeBaz])
     = Some ["// f.go:"; "type Baz struct{}"; ""]
  /\ ~ (exists out,
          @printGoFileExport Sample.host "/p/f.go"
            (mkFile [DeclFunc Sample.fooNoReceiver; Sample.typeBaz])
          = Some out).
Proof.
  repeat split; try reflexivity.
  intros [out H]. vm_compute in H. discriminate.
Qed.

Lemma strange_receiver_field_diagnostic_witness :
  @printGoFileExport Sample.host "/p/f.go"
    (mkFile [DeclFunc Sample.fooTwoNames; Sample.typeBaz])
  = Some ["// f.go:"; "strange receiver field for Foo: &ast.Field{}";
          "type Baz struct{}"; ""].
Proof.
  apply (@strange_receiver_field_diagnostic Sample.host Sample.fooTwoNames
           (mkField ["a"; "b"] (Ident "Bar")) [Sample.typeBaz]
           ["type Baz struct{}"] "/p/f.go");
    [reflexivity | simpl; lia | reflexivity | reflexivity | reflexivity].
Defined.

(** C2, on the code: a method with an unnamed receiver renders to the
    empty text, and the loop over the declarations appends that text
    without looking at it, so a file that holds nothing but
    [func (Bar) Foo()] prints its header, an empty line and the blank
    separator. *)
Theorem unnamed_receiver_prints_empty_line :
  @formatFuncDecl Sample.host Sample.fooOnUnnamed = ""
  /\ @exported Sample.host Sample.fooOnUnnamed = Some true
  /\ @printGoFileExport Sample.host "/p/f.go"
       (mkFile [DeclFunc Sample.fooOnUnnamed])
     = Some ["// f.go:"; ""; ""].
Proof. repeat split. Qed.

(** ** Value declarations *)

Lemma indexedFrom_In (names : list string) :
  forall j i name,
    In (i, name) (indexedFrom j names) ->
    (j <= i)%nat /\ nth_error names (i - j) = Some name.
Proof.
  unfold indexedFrom.
  induction names as [|n names IH]; intros j i name H; simpl in H.
  - contradiction.
  - destruct H as [H | H].
    + inversion H. subst. rewrite Nat.sub_diag. split; [lia | reflexivity].
    + apply IH in H. destruct H as [Hle Hnth]. split; [lia|].
      replace (i - j)%nat with (S (i - S j)) by lia. exact Hnth.
Qed.

Section Values.

Context {host : Host}.

Lemma initializer_clause (values : list Expr) (i : nat) (s : string) :
  (if (i <? List.length values)%nat
   then s ++ "= " ++ formatType (nth i values Nil)
   else s)
  = s ++ match nth_error values i with
         | Some init => "= " ++ formatType init
         | None => ""
         end.
Proof.
  destruct (i <? List.length values)%nat eqn:E.
  - apply Nat.ltb_lt in E.
    rewrite (nth_error_nth' values Nil E). reflexivity.
  - apply Nat.ltb_ge in E. apply nth_error_None in E. rewrite E.
    now rewrite string_app_nil_r.
Qed.

(** The loop over the names gives one line for each eligible name, in
    order, after the lines it was given. *)
Lemma valueNamesLoop_lines (key typ : string) (values : list Expr)
    (names : list string) :
  forall i res out,
    valueNamesLoop key typ values i names res = Some out ->
    out = (res ++ List.map (valueLine key typ values) (eligibleFrom i names))%list.
Proof.
  induction names as [|name names IH]; intros i res out H; simpl in H.
  - inversion H. unfold eligibleFrom, indexedFrom. simpl.
    now rewrite app_nil_r.
  - unfold eligibleFrom, indexedFrom in *. simpl. unfold eligible at 1.
    destruct (isUpper0 name) as [[|]|]; simpl in H.
    + apply IH in H. rewrite H. unfold append.
      rewrite <- app_assoc. simpl. f_equal. f_equal.
      rewrite initializer_clause. unfold valueLine. simpl.
      rewrite !string_app_assoc. simpl. now rewrite !string_app_assoc.
    + apply IH in H. exact H.
    + discriminate.
Qed.

(** C8. In a var or const group the line of the eligible name at
    position [i] ends with the initializer clause, made of the rendered
    [i]-th initializer, exactly when the group has more than [i]
    initializers; past that count the line is the tag word, the name
    and the shared type text alone. *)
Theorem value_initializer_clause (tok : Token.Token) (names : list string)
    (type : Expr) (values : list Expr) (text : string) :
  tok = Token.VAR \/ tok = Token.CONST ->
  formatGenDecl (mkGenDecl tok [ValueSpec names type values]) = Some text ->
  exists lines : list string,
    text = Join lines newline
    /\ List.length lines = List.length (eligibleFrom 0 names)
    /\ forall k i name,
         nth_error (eligibleFrom 0 names) k = Some (i, name) ->
         nth_error names i = Some name
         /\ isUpper0 name = Some true
         /\ exists line,
              nth_error lines k = Some line
              /\ ((i < List.length values)%nat <->
                  exists init,
                    nth_error values i = Some init
                    /\ line = Token.String tok ++ " " ++ name ++ " "
                              ++ valueTypeText type ++ "= " ++ formatType init)
              /\ ((List.length values <= i)%nat <->
                  line = Token.String tok ++ " " ++ name ++ " "
                         ++ valueTypeText type).
Proof.
  intros Htok H.
  assert (Hloop : exists lines,
             valueNamesLoop (Token.String tok) (valueTypeText type) values 0
                            names [] = Some lines
             /\ text = Join lines newline).
  { unfold formatGenDecl in H. cbn [Tok Specs] in H.
    destruct Htok as [-> | ->]; cbn [valueSpecsLoop] in H;
      apply bind_Some in H; destruct H as [res [H1 H2]];
      apply bind_Some in H1; destruct H1 as [lines [H1 H3]];
      inversion H3; subst res; inversion H2; subst text;
      exists lines; (split; [exact H1 | reflexivity]). }
  destruct Hloop as [lines [Hloop Htext]].
  apply valueNamesLoop_lines in Hloop. simpl in Hloop.
  exists lines. split; [exact Htext|]. split.
  - rewrite Hloop. apply length_map.
  - intros k i name Hk.
    assert (Hin : In (i, name) (eligibleFrom 0 names))
      by (eapply nth_error_In; eassumption).
    unfold eligibleFrom in Hin. apply filter_In in Hin.
    destruct Hin as [Hin Hel].
    apply indexedFrom_In in Hin. destruct Hin as [_ Hnth].
    rewrite Nat.sub_0_r in Hnth.
    split; [exact Hnth|]. split.
    { unfold eligible in Hel. simpl in Hel.
      destruct (isUpper0 name) as [[|]|]; [reflexivity | discriminate ..]. }
    exists (valueLine (Token.String tok) (valueTypeText type) values (i, name)).
    split; [rewrite Hloop; apply map_nth_error; exact Hk|].
    unfold valueLine. cbn [fst snd].
    destruct (nth_error values i) as [init|] eqn:Hi.
    + assert (Hlt : (i < List.length values)%nat)
        by (apply nth_error_Some; rewrite Hi; discriminate).
      split.
      * split; [intros _; exists init; split; reflexivity | intros _; exact Hlt].
      * split; [lia|]. intros Heq. exfalso.
        apply (f_equal String.length) in Heq.
        rewrite !string_length_app in Heq. simpl in Heq. lia.
    + assert (Hge : (List.length values <= i)%nat)
        by (apply nth_error_None; exact Hi).
      split.
      * split; [lia|]. intros [init [Hinit _]]. discriminate.
      * split; [|intros _; exact Hge]. intros _.
        now rewrite !string_app_nil_r.
Qed.

End Values.

(** ** The package path resolver *)

Lemma HasPrefix_iff (pre : string) :
  forall s, HasPrefix s pre = true <-> exists v, s = pre ++ v.
Proof.
  induction pre as [|a pre IH]; intros s; simpl.
  - split; [intros _; exists s; reflexivity | reflexivity].
  - destruct s as [|b s].
    + split; [discriminate | intros [v E]; discriminate].
    + rewrite andb_true_iff, Ascii.eqb_eq, IH. split.
      * intros [-> [v ->]]. exists v. reflexivity.
      * intros [v E]. inversion E. split; [reflexivity | exists v; reflexivity].
Qed.

Lemma SplitFrom_cons (sep : ascii) (s : string) :
  forall cur, exists seg segs, SplitFrom sep cur s = seg :: segs.
Proof.
  induction s as [|c s IH]; intros cur; simpl.
  - eauto.
  - destruct (Ascii.eqb c sep); [eauto | apply IH].
Qed.

(** Joining the segments with the separator gives the string back. *)
Lemma SplitFrom_Join (sep : ascii) (s : string) :
  forall cur,
    Join (SplitFrom sep cur s) (String sep "") = cur ++ s.
Proof.
  unfold Join.
  induction s as [|c s IH]; intros cur; simpl.
  - now rewrite string_app_nil_r.
  - destruct (Ascii.eqb c sep) eqn:E.
    + apply Ascii.eqb_eq in E. subst c.
      destruct (SplitFrom_cons sep s "") as [seg [segs Hs]].
      specialize (IH ""). rewrite Hs in IH |- *.
      change (concat (String sep "") (cur :: seg :: segs))
        with (cur ++ String sep "" ++ concat (String sep "") (seg :: segs)).
      rewrite IH. reflexivity.
    + rewrite IH, string_app_assoc. reflexivity.
Qed.

(** No segment holds the separator. *)
Lemma SplitFrom_free (sep : ascii) (s : string) :
  forall cur,
    ~ In sep (list_ascii_of_string cur) ->
    Forall (fun seg => ~ In sep (list_ascii_of_string seg))
           (SplitFrom sep cur s).
Proof.
  induction s as [|c s IH]; intros cur Hcur; simpl.
  - constructor; [exact Hcur | constructor].
  - destruct (Ascii.eqb c sep) eqn:E.
    + constructor; [exact Hcur|]. apply IH. simpl. tauto.
    + apply IH. intros Hin.
      assert (Hsplit : list_ascii_of_string (cur ++ String c "")
                       = (list_ascii_of_string cur ++ [c])%list).
      { clear. induction cur as [|x cur IHc]; simpl;
          [reflexivity | now rewrite IHc]. }
      rewrite Hsplit in Hin. apply in_app_or in Hin.
      destruct Hin as [Hin | [Hin | []]]; [contradiction|].
      subst c. rewrite Ascii.eqb_refl in E. discriminate.
Qed.

Section Resolver.

Context {host : Host}.

Lemma entryMatches_fits (name : string) (f : DirEntry) :
  entryMatches name f = true <-> fits name f.
Proof.
  unfold entryMatches, fits.
  rewrite andb_true_iff, orb_true_iff, String.eqb_eq, HasPrefix_iff.
  split; intros [Hd [He | [v Hv]]]; (split; [exact Hd|]); auto; right;
    exists v; [rewrite <- string_app_assoc | rewrite string_app_assoc];
    exact Hv.
Qed.

Lemma entriesLoop_None (pa name : string) (l : list DirEntry) :
  entriesLoop pa name l = None <-> Forall (fun g => ~ fits name g) l.
Proof.
  induction l as [|f l IH]; simpl.
  - split; [constructor | reflexivity].
  - destruct (entryMatches name f) eqn:E.
    + split; [discriminate|]. intros H. inversion H as [|? ? Hf _]. subst.
      apply entryMatches_fits in E. contradiction.
    + rewrite IH. split.
      * intros H. constructor; [|exact H].
        rewrite <- entryMatches_fits, E. discriminate.
      * intros H. inversion H. assumption.
Qed.

Lemma entriesLoop_Some (pa name : string) (l : list DirEntry) (pa' : string) :
  entriesLoop pa name l = Some pa'
  <-> exists f, firstFit name l f /\ pa' = JoinPath pa (EntryName f).
Proof.
  induction l as [|f l IH]; simpl.
  - split; [discriminate|].
    intros [f [[l1 [l2 [E _]]] _]]. destruct l1; discriminate.
  - destruct (entryMatches name f) eqn:E.
    + split.
      * intros H. inversion H. exists f. split; [|reflexivity].
        exists [], l. split; [reflexivity|].
        split; [apply entryMatches_fits; exact E | constructor].
      * intros [g [[l1 [l2 [El [Hg Hl1]]]] ->]].
        destruct l1 as [|x l1]; simpl in El; inversion El; subst.
        -- reflexivity.
        -- inversion Hl1 as [|? ? Hx _]. subst.
           apply entryMatches_fits in E. contradiction.
    + rewrite IH. split.
      * intros [g [[l1 [l2 [El [Hg Hl1]]]] ->]]. exists g.
        split; [|reflexivity]. exists (f :: l1), l2. subst l.
        split; [reflexivity|]. split; [exact Hg|].
        constructor; [|exact Hl1].
        rewrite <- entryMatches_fits, E. discriminate.
      * intros [g [[l1 [l2 [El [Hg Hl1]]]] ->]]. exists g.
        split; [|reflexivity].
        destruct l1 as [|x l1]; simpl in El; inversion El; subst.
        -- apply entryMatches_fits in Hg. congruence.
        -- exists l1, l2. split; [reflexivity|]. split; [exact Hg|].
           inversion Hl1. assumption.
Qed.

Lemma segmentsLoop_sound (segs : list string) :
  forall pa r,
    segmentsLoop segs pa = Some r ->
    (exists names, Descends pa segs names /\ r = joined pa names)
    \/ (r = "" /\ Stuck pa segs).
Proof.
  induction segs as [|seg segs IH]; intros pa r H; simpl in H.
  - inversion H. left. exists []. split; [constructor | reflexivity].
  - apply bind_Some in H. destruct H as [l [Hl H]].
    destruct (entriesLoop pa seg l) as [pa'|] eqn:E.
    + apply entriesLoop_Some in E. destruct E as [f [Hf ->]].
      apply IH in H. destruct H as [[names [Hd ->]] | [-> Hs]].
      * left. exists (EntryName f :: names).
        split; [econstructor; eassumption | reflexivity].
      * right. split; [reflexivity|].
        destruct Hs as [pre [s [post [names [l' [-> [Hd [Hl' Hno]]]]]]]].
        exists (seg :: pre), s, post, (EntryName f :: names), l'.
        split; [reflexivity|].
        split; [econstructor; eassumption|]. split; assumption.
    + apply entriesLoop_None in E. inversion H. right.
      split; [reflexivity|]. exists [], seg, segs, [], l.
      split; [reflexivity|]. split; [constructor|]. split; assumption.
Qed.

Lemma segmentsLoop_descends (pa : string) (segs names : list string) :
  Descends pa segs names ->
  forall post, segmentsLoop (segs ++ post)%list pa
               = segmentsLoop post (joined pa names).
Proof.
  induction 1 as [pa | pa seg segs l f names Hl Hf _ IH]; intros post; simpl.
  - reflexivity.
  - rewrite Hl. simpl.
    assert (E : entriesLoop pa seg l = Some (JoinPath pa (EntryName f)))
      by (apply entriesLoop_Some; eauto).
    rewrite E. apply IH.
Qed.

Lemma segmentsLoop_complete (segs : list string) (pa r : string) :
  (exists names, Descends pa segs names /\ r = joined pa names)
  \/ (r = "" /\ Stuck pa segs) ->
  segmentsLoop segs pa = Some r.
Proof.
  intros [[names [Hd ->]] | [-> Hs]].
  - rewrite <- (app_nil_r segs). rewrite (segmentsLoop_descends _ _ _ Hd).
    reflexivity.
  - destruct Hs as [pre [seg [post [names [l [-> [Hd [Hl Hno]]]]]]]].
    rewrite (segmentsLoop_descends _ _ _ Hd). simpl. rewrite Hl. simpl.
    apply (entriesLoop_None (joined pa names)) in Hno. rewrite Hno.
    reflexivity.
Qed.

End Resolver.

Section Fallback.

Context {host : Host}.

(** C5. The fallback splits the import path at the path separator and
    descends from the module cache root, taking for each segment the
    first directory child named as the segment or as the segment
    followed by an at sign and more.  It returns the root joined with
    every child taken, and the empty string as soon as a segment fits no
    child; it returns nothing else.  With [a/b@1.2.3] under [/cache],
    [a/b] resolves to [/cache/a/b@1.2.3]. *)
Theorem fallback_resolution (importPath r : string) :
  (searchPackagePathFromGoModCache importPath = Some r
   <-> (exists names,
          Descends goModCache (Split importPath PathSeparator) names
          /\ r = joined goModCache names)
       \/ (r = "" /\ Stuck goModCache (Split importPath PathSeparator)))
  /\ Join (Split importPath PathSeparator) (String PathSeparator "")
     = importPath
  /\ Forall (fun seg => ~ In PathSeparator (list_ascii_of_string seg))
            (Split importPath PathSeparator)
  /\ @searchPackagePathFromGoModCache Sample.host "a/b"
     = Some "/cache/a/b@1.2.3"
  /\ @searchPackagePathFromGoModCache Sample.host "a/d" = Some "".
Proof.
  split; [|split; [|split; [|split; reflexivity]]].
  - unfold searchPackagePathFromGoModCache. split.
    + apply segmentsLoop_sound.
    + apply segmentsLoop_complete.
  - unfold Split. apply (SplitFrom_Join PathSeparator importPath "").
  - unfold Split. apply SplitFrom_free. simpl. tauto.
Qed.

End Fallback.

(** ** Runs on the sample host *)

Lemma isUpper0_first_character_witness :
  exists r, firstChar (stripStar "*Bar") = Some r
            /\ @isUpper0 Sample.host "*Bar" = Some (@IsUpper Sample.host r)
            /\ (@isUpper0 Sample.host "*Bar" = Some true
                <-> @IsUpper Sample.host r = true).
Proof.
  apply (@isUpper0_first_character Sample.host "*Bar");
    [discriminate | intros _; discriminate].
Defined.

Lemma value_initializer_clause_witness :
  exists lines : list string,
    "var A int = 1" ++ newline ++ "var C int " = Join lines newline
    /\ List.length lines
       = List.length (@eligibleFrom Sample.host 0 ["A"; "b"; "C"])
    /\ forall k i name,
         nth_error (@eligibleFrom Sample.host 0 ["A"; "b"; "C"]) k
         = Some (i, name) ->
         nth_error ["A"; "b"; "C"] i = Some name
         /\ @isUpper0 Sample.host name = Some true
         /\ exists line,
              nth_error lines k = Some line
              /\ ((i < 2)%nat <->
                  exists init,
                    nth_error [BasicLit Token.INT "1"; BasicLit Token.INT "2"] i
                    = Some init
                    /\ line = "var" ++ " " ++ name ++ " " ++ "int "
                              ++ "= " ++ @formatType Sample.host init)
              /\ ((2 <= i)%nat <->
                  line = "var" ++ " " ++ name ++ " " ++ "int ").
Proof.
  apply (@value_initializer_clause Sample.host Token.VAR ["A"; "b"; "C"]
           (Ident "int") [BasicLit Token.INT "1"; BasicLit Token.INT "2"]);
    [left; reflexivity | reflexivity].
Defined.

(** * Further properties of the program *)

(** ** Field groups and empty renderings *)

Lemma string_app_nil (a b : string) : a ++ b = "" -> a = "" /\ b = "".
Proof. destruct a; simpl; [auto | discriminate]. Qed.

Lemma Join_cons2 (x y : string) (l : list string) (sep : string) :
  Join (x :: y :: l) sep = x ++ sep ++ Join (y :: l) sep.
Proof. reflexivity. Qed.

Lemma namesText_cons2 (x y : string) (l : list string) :
  namesText (x :: y :: l) = x ++ ", " ++ namesText (y :: l).
Proof.
  unfold namesText. rewrite Join_cons2. now rewrite !string_app_assoc.
Qed.

Lemma namesLoop_text (names : list string) :
  forall n j s,
    n = (j + List.length names)%nat ->
    namesLoop n j names s = s ++ namesText names.
Proof.
  induction names as [|x names IH]; intros n j s Hn; cbn [namesLoop].
  - unfold namesText. now rewrite string_app_nil_r.
  - rewrite (IH n (S j)) by (simpl in Hn; lia).
    destruct names as [|y names].
    + simpl in Hn. replace (j =? n - 1)%nat with true
        by (symmetry; apply Nat.eqb_eq; lia).
      unfold namesText. simpl.
      now rewrite !string_app_assoc, string_app_nil_r.
    + simpl in Hn. replace (j =? n - 1)%nat with false
        by (symmetry; apply Nat.eqb_neq; lia).
      cbn [negb]. rewrite (namesText_cons2 x y names).
      rewrite !string_app_assoc. reflexivity.
Qed.

Section FieldGroups.

Context {host : Host}.

Lemma fieldsLoop_text (l : list Field) :
  forall n i s,
    n = (i + List.length l)%nat ->
    fieldsLoop formatType n i l s = s ++ Join (List.map fieldText l) ", ".
Proof.
  induction l as [|f l IH]; intros n i s Hn; cbn [fieldsLoop].
  - simpl. now rewrite string_app_nil_r.
  - rewrite (IH n (S i)) by (simpl in Hn; lia).
    rewrite (namesLoop_text (Names f) _ 0) by reflexivity.
    destruct l as [|g l].
    + simpl in Hn. replace (i =? n - 1)%nat with true
        by (symmetry; apply Nat.eqb_eq; lia).
      unfold fieldText. simpl.
      now rewrite !string_app_assoc, string_app_nil_r.
    + simpl in Hn. replace (i =? n - 1)%nat with false
        by (symmetry; apply Nat.eqb_neq; lia).
      cbn [negb List.map]. rewrite Join_cons2. unfold fieldText.
      rewrite !string_app_assoc. reflexivity.
Qed.

(** X1. [formatFields] gives the fields separated by a comma and a
    space; a field is its names separated by a comma and a space, a
    space after the last name, and its type; a field with no name is
    its type alone. *)
Theorem formatFields_join (fields : FieldList) :
  formatFields fields = Join (List.map fieldText fields) ", ".
Proof.
  unfold formatFields, formatFieldsWith.
  now rewrite (fieldsLoop_text fields _ 0 "") by reflexivity.
Qed.

(** X2. The only nodes that render to the empty text are the nil node,
    an identifier with an empty name and a literal with an empty
    value. *)
Theorem formatType_empty_iff (e : Expr) :
  formatType e = ""
  <-> e = Nil \/ e = Ident "" \/ exists kind, e = BasicLit kind "".
Proof.
  split.
  - destruct e; simpl; intros H;
      try (left; reflexivity);
      try discriminate H;
      try (apply string_app_nil in H; destruct H as [_ H]; discriminate H).
    + right. left. now subst.
    + right. right. subst. eauto.
    + apply string_app_nil in H. destruct H as [H _].
      destruct Op; discriminate H.
  - intros [-> | [-> | [kind ->]]]; reflexivity.
Qed.

(** X3. [formatFuncDecl] gives the empty text exactly for a receiver
    list of one field with no name. *)
Theorem formatFuncDecl_empty_iff (decl : FuncDecl) :
  formatFuncDecl decl = ""
  <-> exists field, Recv decl = Some [field] /\ Names field = [].
Proof.
  unfold formatFuncDecl.
  destruct (Recv decl) as [[|f [|g l]]|].
  - split; [discriminate | intros [x [E _]]; discriminate].
  - destruct (Names f) as [|n [|m r]] eqn:N.
    + split; [intros _; exists f; auto | reflexivity].
    + split; [|intros [x [E Hx]]; inversion E; subst; congruence].
      destruct (TypeParams (FType decl)); simpl; discriminate.
    + split; [discriminate|].
      intros [x [E Hx]]; inversion E; subst; congruence.
  - split; [discriminate | intros [x [E _]]; discriminate].
  - split; [|intros [x [E _]]; discriminate].
    destruct (TypeParams (FType decl)); simpl; discriminate.
Qed.

End FieldGroups.

(** ** The classifier on plain names, and the gate *)

Lemma byte_nonneg (c : ascii) : 0 <= byte c.
Proof. unfold byte. apply N2Z.is_nonneg. Qed.

Lemma runes_ascii (c : ascii) (s : string) :
  byte c < 128 -> runes (String c s) = byte c :: runes s.
Proof.
  intros H. unfold runes. cbn [runesFrom]. unfold decoderune.
  fold (byte c). unfold runeSelf.
  replace (byte c <? 128) with true by (symmetry; apply Z.ltb_lt; exact H).
  reflexivity.
Qed.

Section Gate.

Context {host : Host}.

Lemma IsUpper_ascii (r : Z) :
  0 <= r < 128 -> IsUpper r = (65 <=? r) && (r <=? 90).
Proof.
  intros H. unfold IsUpper, Unicode.MaxLatin1, Unicode.latin1Upper.
  replace (0 <=? r) with true by (symmetry; apply Z.leb_le; lia).
  replace (r <=? 255) with true by (symmetry; apply Z.leb_le; lia).
  replace (192 <=? r) with false by (symmetry; apply Z.leb_gt; lia).
  replace (216 <=? r) with false by (symmetry; apply Z.leb_gt; lia).
  simpl. now rewrite !orb_false_r.
Qed.

Lemma isUpper0_None (s : string) : isUpper0 s = None <-> s = "" \/ s = "*".
Proof.
  rewrite isUpper0_stripStar. unfold firstChar.
  destruct (HasPrefix s "*") eqn:E.
  - apply HasPrefix_star in E. destruct E as [t ->].
    rewrite stripStar_star. destruct t as [|c t].
    + split; [auto | reflexivity].
    + destruct (runes_cons c t) as [r [rs ->]]. simpl.
      split; [discriminate | intros [H | H]; discriminate].
  - rewrite (stripStar_other s E). destruct s as [|c t].
    + split; [auto | reflexivity].
    + destruct (runes_cons c t) as [r [rs ->]]. simpl.
      split; [discriminate|]. intros [H | H]; [discriminate|].
      rewrite H in E. discriminate.
Qed.

(** X4. For a name whose first byte, after one leading marker or with
    none, is below 128, the classifier needs no Unicode table: it
    accepts the name exactly when that byte is one of [A] to [Z].  A
    name that starts with an underscore, a digit or a small letter is
    rejected. *)
Theorem isUpper0_ascii (c : ascii) (s : string) :
  byte c < 128 ->
  isUpper0 (String "*" (String c s)) = Some ((65 <=? byte c) && (byte c <=? 90))
  /\ (c <> "*"%char ->
      isUpper0 (String c s) = Some ((65 <=? byte c) && (byte c <=? 90))).
Proof.
  intros H.
  assert (Hup : IsUpper (byte c) = (65 <=? byte c) && (byte c <=? 90))
    by (apply IsUpper_ascii; split; [apply byte_nonneg | exact H]).
  split.
  - unfold isUpper0. cbn [HasPrefix]. rewrite Ascii.eqb_refl. cbn [andb].
    rewrite runes_star, (runes_ascii c s H). simpl. now rewrite Hup.
  - intros Hc. unfold isUpper0. cbn [HasPrefix].
    replace (Ascii.eqb c "*") with false
      by (symmetry; apply Ascii.eqb_neq; exact Hc).
    cbn [andb]. rewrite (runes_ascii c s H). simpl. now rewrite Hup.
Qed.

(** X5. [exported] panics exactly when the receiver list has not one
    field, or the rendered receiver type is empty or the marker alone,
    or the name is empty or the marker alone and is looked at: with a
    receiver the name is looked at only after the receiver type was
    accepted. *)
Theorem exported_panics_iff (decl : FuncDecl) :
  exported decl = None
  <-> match Recv decl with
      | None => Name decl = "" \/ Name decl = "*"
      | Some [field] =>
          formatType (Type_ field) = ""
          \/ formatType (Type_ field) = "*"
          \/ (isUpper0 (formatType (Type_ field)) = Some true
              /\ (Name decl = "" \/ Name decl = "*"))
      | Some _ => True
      end.
Proof.
  unfold exported.
  destruct (Recv decl) as [[|f [|g l]]|].
  - split; auto.
  - destruct (isUpper0 (formatType (Type_ f))) as [[|]|] eqn:E; simpl.
    + rewrite isUpper0_None. split.
      * intros H. right. right. split; [reflexivity | exact H].
      * intros [H | [H | [_ H]]]; [| | exact H].
        -- rewrite H in E. discriminate.
        -- rewrite H in E. discriminate.
    + split; [discriminate|].
      intros [H | [H | [H _]]]; [| | discriminate].
      * rewrite H in E. discriminate.
      * rewrite H in E. discriminate.
    + apply isUpper0_None in E. split; [|reflexivity].
      intros _. destruct E as [E | E]; auto.
  - split; auto.
  - apply isUpper0_None.
Qed.

(** X6. A function with no receiver renders as [func] and its
    signature, and a file that holds it alone prints it exactly when
    the classifier accepts its name; a rejected name prints nothing. *)
Theorem function_reported_iff (name : string) (ft : FuncType_ Expr)
    (path : string) :
  formatFuncDecl (mkFuncDecl None name ft) = "func " ++ signatureText name ft
  /\ (printGoFileExport path (mkFile [DeclFunc (mkFuncDecl None name ft)])
      = Some [printFileName path; "func " ++ signatureText name ft; ""]
      <-> isUpper0 name = Some true)
  /\ (isUpper0 name = Some false ->
      printGoFileExport path (mkFile [DeclFunc (mkFuncDecl None name ft)])
      = Some []).
Proof.
  assert (Hline : formatFuncDecl (mkFuncDecl None name ft)
                  = "func " ++ signatureText name ft).
  { unfold formatFuncDecl, signatureText. simpl.
    destruct (TypeParams ft); simpl; rewrite ?string_app_assoc; simpl;
      rewrite ?string_app_assoc; reflexivity. }
  split; [exact Hline|].
  rewrite printGoFileExport_single, Hline.
  change (exported (mkFuncDecl None name ft)) with (isUpper0 name).
  destruct (isUpper0 name) as [[|]|]; simpl.
  - split; [split; auto | discriminate].
  - split; [split; discriminate | reflexivity].
  - split; [split; discriminate | discriminate].
Qed.

End Gate.

Lemma isUpper0_ascii_witness :
  @isUpper0 Sample.host "*_hidden" = Some ((65 <=? byte "_") && (byte "_" <=? 90))
  /\ ("_"%char <> "*"%char ->
      @isUpper0 Sample.host "_hidden"
      = Some ((65 <=? byte "_") && (byte "_" <=? 90))).
Proof.
  apply (@isUpper0_ascii Sample.host "_"%char "hidden"). reflexivity.
Defined.

(** ** Groups of declarations *)

Section Groups.

Context {host : Host}.

Lemma eligible_cases (name : string) :
  name <> "" -> name <> "*" ->
  isUpper0 name = Some (eligible name).
Proof.
  intros H1 H2. unfold eligible.
  destruct (isUpper0 name) as [[|]|] eqn:E; try reflexivity.
  apply isUpper0_None in E. tauto.
Qed.

Lemma typeSpecsLoop_lines (specs : list Spec) :
  (forall name type, In (TypeSpec name type) specs ->
                     name <> "" /\ name <> "*") ->
  forall res,
    typeSpecsLoop specs res = Some (res ++ List.flat_map typeLine specs)%list.
Proof.
  induction specs as [|spec specs IH]; intros Hnames res; simpl.
  - now rewrite app_nil_r.
  - assert (Hrest : forall name type, In (TypeSpec name type) specs ->
                                      name <> "" /\ name <> "*")
      by (intros; eapply Hnames; right; eassumption).
    destruct spec as [path | names type values | name type]; simpl;
      try (apply IH; exact Hrest).
    destruct (Hnames name type (or_introl eq_refl)) as [H1 H2].
    rewrite (eligible_cases name H1 H2). simpl.
    destruct (eligible name).
    + rewrite (IH Hrest). unfold append. now rewrite <- app_assoc.
    + apply IH; exact Hrest.
Qed.

(** X7. A type declaration gives one line, [type], the name and the
    rendered type, for each of its specs with an accepted name, in the
    order of the source and joined by newlines; the other specs give
    nothing. *)
Theorem type_declaration_lines (specs : list Spec) :
  (forall name type, In (TypeSpec name type) specs ->
                     name <> "" /\ name <> "*") ->
  formatGenDecl (mkGenDecl Token.TYPE specs)
  = Some (Join (List.flat_map typeLine specs) newline).
Proof.
  intros H. unfold formatGenDecl. cbn [Tok Specs].
  rewrite (typeSpecsLoop_lines specs H []). reflexivity.
Qed.

Lemma valueNamesLoop_returns (key typ : string) (values : list Expr)
    (names : list string) :
  (forall name, In name names -> name <> "" /\ name <> "*") ->
  forall i res,
    valueNamesLoop key typ values i names res
    = Some (res ++ List.map (valueLine key typ values)
                            (eligibleFrom i names))%list.
Proof.
  induction names as [|name names IH]; intros Hnames i res.
  - simpl. unfold eligibleFrom, indexedFrom. simpl. now rewrite app_nil_r.
  - assert (Hrest : forall n, In n names -> n <> "" /\ n <> "*")
      by (intros; apply Hnames; right; assumption).
    destruct (valueNamesLoop key typ values i (name :: names) res)
      as [out|] eqn:E.
    + f_equal. eapply valueNamesLoop_lines. exact E.
    + exfalso. simpl in E.
      destruct (Hnames name (or_introl eq_refl)) as [H1 H2].
      rewrite (eligible_cases name H1 H2) in E. simpl in E.
      destruct (eligible name); rewrite (IH Hrest) in E; discriminate.
Qed.

Lemma valueSpecsLoop_lines (key : string) (specs : list Spec) :
  (forall names type values name,
     In (ValueSpec names type values) specs -> In name names ->
     name <> "" /\ name <> "*") ->
  forall res,
    valueSpecsLoop key specs res
    = Some (res ++ List.flat_map (valueLines key) specs)%list.
Proof.
  induction specs as [|spec specs IH]; intros Hnames res; simpl.
  - now rewrite app_nil_r.
  - assert (Hrest : forall names type values name,
               In (ValueSpec names type values) specs -> In name names ->
               name <> "" /\ name <> "*")
      by (intros; eapply Hnames; [right|]; eassumption).
    destruct spec as [path | names type values | name type]; simpl;
      try (apply IH; exact Hrest).
    rewrite valueNamesLoop_returns
      by (intros n Hn; eapply Hnames; [left; reflexivity | exact Hn]).
    simpl. rewrite (IH Hrest). now rewrite <- app_assoc.
Qed.

(** X8. A var or const declaration with several specs gives the lines
    of its specs one after the other, in the order of the source and
    joined by newlines: each spec pairs its own names with its own
    initializers, from position 0. *)
Theorem value_declaration_lines (tok : Token.Token) (specs : list Spec) :
  tok = Token.VAR \/ tok = Token.CONST ->
  (forall names type values name,
     In (ValueSpec names type values) specs -> In name names ->
     name <> "" /\ name <> "*") ->
  formatGenDecl (mkGenDecl tok specs)
  = Some (Join (List.flat_map (valueLines (Token.String tok)) specs)
               newline).
Proof.
  intros Htok H. unfold formatGenDecl. cbn [Tok Specs].
  destruct Htok as [-> | ->];
    rewrite (valueSpecsLoop_lines _ specs H []); reflexivity.
Qed.

Lemma declsLoop_concat (ds1 ds2 : list Decl) :
  forall res,
    declsLoop (ds1 ++ ds2) res = (r <- declsLoop ds1 res ;; declsLoop ds2 r).
Proof.
  induction ds1 as [|xdecl ds1 IH]; intros res; simpl.
  - reflexivity.
  - destruct xdecl as [|decl|decl].
    + apply IH.
    + destruct (exported decl) as [[|]|]; simpl; [apply IH | apply IH | reflexivity].
    + destruct (formatGenDecl decl) as [s|]; simpl; [|reflexivity].
      destruct (negb (String.eqb s "")); apply IH.
Qed.

(** X9. The lines of a file are the lines of its declarations in the
    order of the source: the lines of two lists of declarations put end
    to end are the lines of the first followed by the lines of the
    second, and a panic in either is a panic of the whole.  A bad
    declaration and an import declaration add nothing. *)
Theorem declarations_in_order (ds1 ds2 : list Decl) :
  declsLoop (ds1 ++ ds2) []
  = (a <- declsLoop ds1 [] ;; b <- declsLoop ds2 [] ;; Some (a ++ b)%list)
  /\ (forall specs rest res,
        declsLoop (DeclGen (mkGenDecl Token.IMPORT specs) :: rest) res
        = declsLoop rest res)
  /\ (forall rest res, declsLoop (BadDecl :: rest) res = declsLoop rest res).
Proof.
  split; [|split; reflexivity].
  rewrite declsLoop_concat.
  destruct (declsLoop ds1 []) as [a|]; simpl; [|reflexivity].
  apply declsLoop_app.
Qed.

End Groups.

Lemma type_declaration_lines_witness :
  @formatGenDecl Sample.host
    (mkGenDecl Token.TYPE
       [TypeSpec "Baz" (StructType None); TypeSpec "hidden" (Ident "int");
        TypeSpec "Size" (Ident "int")])
  = Some ("type Baz struct{}" ++ newline ++ "type Size int").
Proof.
  apply (@type_declaration_lines Sample.host).
  intros name type [H | [H | [H | []]]]; inversion H; split; discriminate.
Defined.

Lemma value_declaration_lines_witness :
  @formatGenDecl Sample.host
    (mkGenDecl Token.CONST
       [ValueSpec ["A"; "b"] Nil [BasicLit Token.INT "1"; BasicLit Token.INT "2"];
        ValueSpec ["C"] (Ident "int") []])
  = Some ("const A = 1" ++ newline ++ "const C int ").
Proof.
  apply (@value_declaration_lines Sample.host Token.CONST); [right; reflexivity|].
  intros names type values name [H | [H | []]] Hn; inversion H; subst;
    simpl in Hn; repeat (destruct Hn as [Hn | Hn]; [subst; split; discriminate|]);
    contradiction.
Defined.

(** ** The fallback on a sorted listing *)

Lemma ascii_compare_refl (a : ascii) : Ascii.compare a a = Eq.
Proof. unfold Ascii.compare. apply N.compare_refl. Qed.

Lemma string_compare_refl (s : string) : String.compare s s = Eq.
Proof.
  induction s as [|a s IH]; simpl; [reflexivity|].
  now rewrite ascii_compare_refl.
Qed.

(** A string comes before every string it is a proper prefix of. *)
Lemma string_compare_prefix (s : string) (c : ascii) (v : string) :
  String.compare s (s ++ String c v) = Lt.
Proof.
  induction s as [|a s IH]; simpl; [reflexivity|].
  now rewrite ascii_compare_refl.
Qed.

Lemma string_ltb_leb (a b : string) :
  String.ltb a b = true -> String.leb a b = true.
Proof.
  unfold String.ltb, String.leb.
  destruct (String.compare a b); [reflexivity | reflexivity | discriminate].
Qed.

Lemma string_leb_refl (a : string) : String.leb a a = true.
Proof. unfold String.leb. now rewrite string_compare_refl. Qed.

Lemma byName_tail (l1 : list DirEntry) (f : DirEntry) (l2 : list DirEntry) :
  byName (l1 ++ f :: l2) ->
  Forall (fun g => String.ltb (EntryName f) (EntryName g) = true) l2.
Proof.
  unfold byName. induction l1 as [|x l1 IH]; simpl; intros H.
  - apply StronglySorted_inv in H. tauto.
  - apply StronglySorted_inv in H. apply IH. tauto.
Qed.

Section SortedFallback.

Context {host : Host}.

Lemma firstFit_least (seg : string) (l : list DirEntry) (f : DirEntry) :
  byName l -> firstFit seg l f ->
  In f l
  /\ forall g, In g l -> fits seg g ->
               String.leb (EntryName f) (EntryName g) = true.
Proof.
  intros Hs [l1 [l2 [-> [Hf Hl1]]]]. split.
  - apply in_or_app. right. left. reflexivity.
  - intros g Hg Hfit. apply in_app_or in Hg.
    destruct Hg as [Hg | [Hg | Hg]].
    + rewrite Forall_forall in Hl1. exfalso. exact (Hl1 g Hg Hfit).
    + subst g. apply string_leb_refl.
    + apply byName_tail in Hs. rewrite Forall_forall in Hs.
      apply string_ltb_leb. exact (Hs g Hg).
Qed.

(** X10. On a listing in the order of [os.ReadDir] the child taken for a
    segment is the fitting directory with the least name: a directory
    named as the segment is taken before any versioned one, and among
    versioned directories the one whose name sorts first. *)
Theorem fallback_takes_least_name (pa seg : string) (l : list DirEntry) :
  byName l ->
  (forall pa',
     entriesLoop pa seg l = Some pa' ->
     exists f, In f l /\ fits seg f /\ pa' = JoinPath pa (EntryName f)
               /\ forall g, In g l -> fits seg g ->
                            String.leb (EntryName f) (EntryName g) = true)
  /\ (forall f, In f l -> IsDir f = true -> EntryName f = seg ->
                entriesLoop pa seg l = Some (JoinPath pa seg)).
Proof.
  intros Hs.
  assert (Hleast : forall pa',
             entriesLoop pa seg l = Some pa' ->
             exists f, In f l /\ fits seg f /\ pa' = JoinPath pa (EntryName f)
                       /\ forall g, In g l -> fits seg g ->
                                    String.leb (EntryName f) (EntryName g)
                                    = true).
  { intros pa' H. apply entriesLoop_Some in H. destruct H as [f [Hf ->]].
    destruct (firstFit_least seg l f Hs Hf) as [Hin Hle].
    exists f. repeat split; try assumption.
    - destruct Hf as [l1 [l2 [_ [[Hd _] _]]]]. exact Hd.
    - destruct Hf as [l1 [l2 [_ [[_ Hn] _]]]]. exact Hn. }
  split; [exact Hleast|].
  intros f Hin Hd Hn.
  assert (Hfit : fits seg f) by (split; [exact Hd | left; exact Hn]).
  destruct (entriesLoop pa seg l) as [pa'|] eqn:E.
  - destruct (Hleast pa' eq_refl) as [f' [_ [[_ Hname] [-> Hle]]]].
    destruct Hname as [-> | [v Hv]]; [reflexivity|].
    specialize (Hle f Hin Hfit). rewrite Hv, Hn in Hle. exfalso.
    unfold String.leb in Hle.
    rewrite String.compare_antisym in Hle.
    change (seg ++ "@" ++ v) with (seg ++ String "@" v) in Hle.
    rewrite string_compare_prefix in Hle. discriminate.
  - apply entriesLoop_None in E. rewrite Forall_forall in E.
    exfalso. exact (E f Hin Hfit).
Qed.

(** X11. When the module cache root cannot be listed the fallback
    panics for every import path, the empty one too: the path always
    has a first segment, and the root is listed for it. *)
Theorem fallback_without_cache (importPath : string) :
  ReadDir goModCache = None ->
  searchPackagePathFromGoModCache importPath = None.
Proof.
  intros H. unfold searchPackagePathFromGoModCache, Split.
  destruct (SplitFrom_cons PathSeparator importPath "") as [seg [segs ->]].
  simpl. rewrite H. reflexivity.
Qed.

End SortedFallback.

Lemma fallback_takes_least_name_witness :
  (forall pa',
     @entriesLoop Sample.host "/cache/a" "b"
       [mkDirEntry "b" false; mkDirEntry "b@1.2.3" true;
        mkDirEntry "b@1.4.0" true; mkDirEntry "c" true] = Some pa' ->
     exists f,
       In f [mkDirEntry "b" false; mkDirEntry "b@1.2.3" true;
             mkDirEntry "b@1.4.0" true; mkDirEntry "c" true]
       /\ fits "b" f /\ pa' = Sample.join "/cache/a" (EntryName f)
       /\ forall g,
            In g [mkDirEntry "b" false; mkDirEntry "b@1.2.3" true;
                  mkDirEntry "b@1.4.0" true; mkDirEntry "c" true] ->
            fits "b" g -> String.leb (EntryName f) (EntryName g) = true)
  /\ (forall f,
        In f [mkDirEntry "b" false; mkDirEntry "b@1.2.3" true;
              mkDirEntry "b@1.4.0" true; mkDirEntry "c" true] ->
        IsDir f = true -> EntryName f = "b" ->
        @entriesLoop Sample.host "/cache/a" "b"
          [mkDirEntry "b" false; mkDirEntry "b@1.2.3" true;
           mkDirEntry "b@1.4.0" true; mkDirEntry "c" true]
        = Some (Sample.join "/cache/a" "b")).
Proof.
  apply (@fallback_takes_least_name Sample.host "/cache/a" "b").
  unfold byName. repeat constructor.
Defined.

Lemma fallback_without_cache_witness :
  @searchPackagePathFromGoModCache SampleTools.bareHost "a/b" = None.
Proof.
  apply (@fallback_without_cache SampleTools.bareHost "a/b"). reflexivity.
Defined.

(** ** The package scanner *)

Lemma after_nil (r : Run) : after [] r = r.
Proof. destruct r; reflexivity. Qed.

Lemma after_after (a b : list string) (r : Run) :
  after a (after b r) = after (a ++ b) r.
Proof. destruct r; simpl; now rewrite app_assoc. Qed.

Lemma substring_all (s : string) : String.substring 0 (String.length s) s = s.
Proof. induction s as [|c s IH]; simpl; [reflexivity | now rewrite IH]. Qed.

Lemma substring_skip (p s : string) (m : nat) :
  String.substring (String.length p) m (p ++ s) = String.substring 0 m s.
Proof. induction p as [|c p IH]; simpl; [reflexivity | exact IH]. Qed.

Lemma substring_split (s : string) :
  forall n, (n <= String.length s)%nat ->
            s = String.substring 0 n s
                ++ String.substring n (String.length s - n) s.
Proof.
  induction s as [|c s IH]; intros n Hn.
  - simpl in Hn. replace n with 0%nat by lia. reflexivity.
  - destruct n as [|n].
    + simpl. now rewrite substring_all.
    + simpl in Hn. simpl. f_equal. apply IH. lia.
Qed.

(** [strings.HasSuffix] holds exactly of the strings that end with the
    suffix. *)
Lemma HasSuffix_iff (s suffix : string) :
  HasSuffix s suffix = true <-> exists p, s = p ++ suffix.
Proof.
  unfold HasSuffix. rewrite andb_true_iff, Nat.leb_le, String.eqb_eq. split.
  - intros [Hle Hsub].
    exists (String.substring 0 (String.length s - String.length suffix) s).
    rewrite (substring_split s (String.length s - String.length suffix))
      at 1 by lia.
    f_equal. rewrite <- Hsub at 3. f_equal. lia.
  - intros [p ->]. rewrite string_length_app. split; [lia|].
    replace (String.length p + String.length suffix - String.length suffix)%nat
      with (String.length p) by lia.
    rewrite substring_skip. apply substring_all.
Qed.

Section Scan.

Context {host : Host} {tools : Toolchain}.

Lemma skip_test (d : DirEntry) :
  IsDir d || negb (HasSuffix (EntryName d) ".go")
  || HasSuffix (EntryName d) "_test.go" = negb (isSource d).
Proof.
  unfold isSource.
  destruct (IsDir d), (HasSuffix (EntryName d) ".go"),
    (HasSuffix (EntryName d) "_test.go"); reflexivity.
Qed.

Lemma filesLoop_blocks (dirpath : string) (l : list DirEntry) :
  forall out, filesLoop dirpath l out = after out (blocks dirpath l).
Proof.
  induction l as [|d l IH]; intros out; cbn [filesLoop blocks].
  - simpl. now rewrite app_nil_r.
  - rewrite skip_test. unfold fileBlock.
    destruct (isSource d); cbn [negb].
    + destruct (ParseFile (JoinPath dirpath (EntryName d))) as [src|].
      * destruct (String.eqb (PkgName src) "main").
        -- rewrite IH. destruct (blocks dirpath l); reflexivity.
        -- destruct (printGoFileExport _ (Ast src)) as [lines|].
           ++ rewrite IH. destruct (blocks dirpath l); simpl;
                now rewrite app_assoc.
           ++ simpl. now rewrite app_nil_r.
      * rewrite IH. destruct (blocks dirpath l); reflexivity.
    + rewrite IH. destruct (blocks dirpath l); reflexivity.
Qed.

Lemma blocks_sources (dirpath : string) (l : list DirEntry) :
  blocks dirpath l = blocks dirpath (List.filter isSource l).
Proof.
  induction l as [|d l IH]; [reflexivity|]. cbn [List.filter].
  destruct (isSource d) eqn:E; cbn [blocks]; rewrite IH; [reflexivity|].
  unfold fileBlock. rewrite E.
  destruct (blocks dirpath (List.filter isSource l)); reflexivity.
Qed.

(** X12. [printExported] panics with nothing printed when the directory
    cannot be listed.  Otherwise it prints, in the sorted order of the
    listing, the block of each entry that is a file named [*.go] and
    not [*_test.go]: nothing for a file that does not parse or is of
    package [main], the lines of [printGoFileExport] for another; a
    file on which that panics ends the run, with the blocks before it
    printed. *)
Theorem printExported_blocks (dirpath : string) :
  printExported dirpath
  = match ReadDir dirpath with
    | None => Aborted []
    | Some l =>
        blocks dirpath (List.filter isSource (SortFunc l compareNames))
    end.
Proof.
  unfold printExported. destruct (ReadDir dirpath) as [l|]; [|reflexivity].
  rewrite filesLoop_blocks, after_nil. apply blocks_sources.
Qed.

(** X13. An entry is read exactly when it is not a directory, its name
    ends in [.go] and does not end in [_test.go]; any other entry can
    be dropped from the listing or added to it without changing what is
    printed. *)
Theorem source_selection (dirpath : string) (d : DirEntry)
    (before rest : list DirEntry) (out : list string) :
  (isSource d = true
   <-> IsDir d = false
       /\ (exists p, EntryName d = p ++ ".go")
       /\ ~ (exists p, EntryName d = p ++ "_test.go"))
  /\ (isSource d = false ->
      filesLoop dirpath (before ++ d :: rest) out
      = filesLoop dirpath (before ++ rest) out).
Proof.
  split.
  - unfold isSource. rewrite !andb_true_iff, !negb_true_iff.
    rewrite <- (HasSuffix_iff (EntryName d) ".go").
    rewrite <- (HasSuffix_iff (EntryName d) "_test.go").
    destruct (HasSuffix (EntryName d) "_test.go"); intuition congruence.
  - intros H. rewrite !filesLoop_blocks. f_equal.
    rewrite (blocks_sources dirpath (before ++ d :: rest)).
    rewrite (blocks_sources dirpath (before ++ rest)).
    rewrite !filter_app. cbn [List.filter]. rewrite H. reflexivity.
Qed.

End Scan.

(** ** The order of the files *)

Lemma string_compare_lt_trans (a : string) :
  forall b c,
    String.compare a b = Lt -> String.compare b c = Lt ->
    String.compare a c = Lt.
Proof.
  induction a as [|x a IH]; intros [|y b] [|z c]; simpl;
    try discriminate; try reflexivity.
  unfold Ascii.compare.
  destruct (N.compare_spec (N_of_ascii x) (N_of_ascii y)) as [Exy|Lxy|Gxy];
    destruct (N.compare_spec (N_of_ascii y) (N_of_ascii z)) as [Eyz|Lyz|Gyz];
    try discriminate; intros H1 H2.
  - rewrite <- Eyz, Exy, N.compare_refl. eapply IH; eassumption.
  - rewrite Exy. apply N.compare_lt_iff in Lyz. now rewrite Lyz.
  - rewrite <- Eyz. apply N.compare_lt_iff in Lxy. now rewrite Lxy.
  - assert (L : (N_of_ascii x < N_of_ascii z)%N) by (eapply N.lt_trans; eassumption).
    apply N.compare_lt_iff in L. now rewrite L.
Qed.

Lemma string_leb_trans (a b c : string) :
  String.leb a b = true -> String.leb b c = true -> String.leb a c = true.
Proof.
  unfold String.leb.
  destruct (String.compare a b) eqn:Eab; try discriminate;
    destruct (String.compare b c) eqn:Ebc; try discriminate; intros _ _.
  - apply String.compare_eq_iff in Eab, Ebc. subst.
    now rewrite string_compare_refl.
  - apply String.compare_eq_iff in Eab. subst. now rewrite Ebc.
  - apply String.compare_eq_iff in Ebc. subst. now rewrite Eab.
  - now rewrite (string_compare_lt_trans a b c Eab Ebc).
Qed.

(** The comparison function is at most 0 exactly when the first name is
    not after the second. *)
Lemma compareNames_le (a b : DirEntry) :
  (compareNames a b <=? 0) = String.leb (EntryName a) (EntryName b).
Proof.
  unfold compareNames, String.ltb, String.leb.
  destruct (String.eqb_spec (EntryName a) (EntryName b)) as [E|N].
  - rewrite E, string_compare_refl. reflexivity.
  - destruct (String.compare (EntryName a) (EntryName b)) eqn:C;
      try reflexivity.
    apply String.compare_eq_iff in C. contradiction.
Qed.

Lemma insertBy_perm {A : Type} (cmp : A -> A -> Z) (x : A) (l : list A) :
  Permutation (insertBy cmp x l) (x :: l).
Proof.
  induction l as [|y l IH]; simpl; [reflexivity|].
  destruct (cmp x y <=? 0); [reflexivity|].
  rewrite IH. apply perm_swap.
Qed.

Lemma SortFunc_perm {A : Type} (cmp : A -> A -> Z) (l : list A) :
  Permutation (SortFunc l cmp) l.
Proof.
  induction l as [|x l IH]; simpl; [reflexivity|].
  rewrite insertBy_perm. now rewrite IH.
Qed.

Lemma insertBy_sorted (x : DirEntry) (l : list DirEntry) :
  StronglySorted
    (fun a b => String.leb (EntryName a) (EntryName b) = true) l ->
  StronglySorted
    (fun a b => String.leb (EntryName a) (EntryName b) = true)
    (insertBy compareNames x l).
Proof.
  induction 1 as [|y l Hl IH Hy]; simpl.
  - repeat constructor.
  - rewrite compareNames_le.
    destruct (String.leb (EntryName x) (EntryName y)) eqn:E.
    + constructor; [constructor; assumption|].
      constructor; [exact E|].
      rewrite Forall_forall in *. intros z Hz.
      eapply string_leb_trans; [exact E | apply Hy; exact Hz].
    + constructor; [exact IH|].
      apply (Permutation_Forall (Permutation_sym (insertBy_perm _ x l))).
      constructor; [|exact Hy].
      destruct (String.leb_total (EntryName x) (EntryName y)) as [H | H];
        [congruence | exact H].
Qed.

Lemma SortFunc_sorted (l : list DirEntry) :
  StronglySorted
    (fun a b => String.leb (EntryName a) (EntryName b) = true)
    (SortFunc l compareNames).
Proof.
  induction l as [|x l IH]; simpl; [constructor|].
  apply insertBy_sorted. exact IH.
Qed.

Lemma string_leb_ltb (a b : string) :
  String.leb a b = true -> a <> b -> String.ltb a b = true.
Proof.
  unfold String.leb, String.ltb.
  destruct (String.compare a b) eqn:C; try discriminate; try reflexivity.
  apply String.compare_eq_iff in C. contradiction.
Qed.

Lemma sorted_distinct_byName (l : list DirEntry) :
  StronglySorted
    (fun a b => String.leb (EntryName a) (EntryName b) = true) l ->
  NoDup (List.map EntryName l) ->
  byName l.
Proof.
  unfold byName. induction 1 as [|x l Hl IH Hx]; intros Hnd; simpl in Hnd.
  - constructor.
  - inversion Hnd as [|? ? Hnotin Hnd']. subst.
    constructor; [apply IH; exact Hnd'|].
    rewrite Forall_forall in *. intros y Hy.
    apply string_leb_ltb; [apply Hx; exact Hy|].
    intros E. apply Hnotin. rewrite E. apply in_map. exact Hy.
Qed.

Lemma byName_unique (a : list DirEntry) :
  forall b, byName a -> byName b -> Permutation a b -> a = b.
Proof.
  unfold byName.
  induction a as [|x a IH]; intros b Ha Hb Hp.
  - apply Permutation_nil in Hp. now subst.
  - destruct b as [|y b];
      [apply Permutation_sym, Permutation_nil in Hp; discriminate|].
    apply StronglySorted_inv in Ha. destruct Ha as [Ha Hx].
    apply StronglySorted_inv in Hb. destruct Hb as [Hb Hy].
    rewrite Forall_forall in Hx, Hy.
    assert (Exy : x = y).
    { assert (Hxin : In x (y :: b))
        by (eapply Permutation_in; [exact Hp | left; reflexivity]).
      assert (Hyin : In y (x :: a))
        by (eapply Permutation_in;
            [apply Permutation_sym; exact Hp | left; reflexivity]).
      destruct Hxin as [E | Hxin]; [auto|].
      destruct Hyin as [E | Hyin]; [auto|].
      specialize (Hx y Hyin). specialize (Hy x Hxin).
      unfold String.ltb in Hx, Hy.
      rewrite String.compare_antisym in Hy.
      destruct (String.compare (EntryName x) (EntryName y)); discriminate. }
    subst y. f_equal. apply IH; try assumption.
    eapply Permutation_cons_inv. exact Hp.
Qed.

(** X14. On a listing with distinct names, as a directory has, the sort
    of [printExported] gives the entries in ascending order of name,
    whatever order they came in: it permutes the listing, two orders of
    the same entries sort to the same list, and a listing already in
    the order of [os.ReadDir] is left as it is. *)
Theorem files_in_name_order (l : list DirEntry) :
  NoDup (List.map EntryName l) ->
  byName (SortFunc l compareNames)
  /\ Permutation (SortFunc l compareNames) l
  /\ (forall l', Permutation l l' ->
                 SortFunc l' compareNames = SortFunc l compareNames)
  /\ (byName l -> SortFunc l compareNames = l).
Proof.
  intros Hnd.
  assert (Hsorted : forall k, NoDup (List.map EntryName k) ->
                              byName (SortFunc k compareNames)).
  { intros k Hk. apply sorted_distinct_byName; [apply SortFunc_sorted|].
    eapply Permutation_NoDup; [|exact Hk].
    apply Permutation_map, Permutation_sym, SortFunc_perm. }
  split; [apply Hsorted; exact Hnd|].
  split; [apply SortFunc_perm|]. split.
  - intros l' Hp. apply byName_unique.
    + apply Hsorted. eapply Permutation_NoDup; [|exact Hnd].
      apply Permutation_map. exact Hp.
    + apply Hsorted. exact Hnd.
    + rewrite !SortFunc_perm. apply Permutation_sym. exact Hp.
  - intros Hl. apply byName_unique; [apply Hsorted; exact Hnd | exact Hl|].
    apply SortFunc_perm.
Qed.

Lemma files_in_name_order_witness :
  byName (SortFunc [mkDirEntry "b.go" false; mkDirEntry "a.go" false;
                    mkDirEntry "B.go" false] compareNames)
  /\ Permutation
       (SortFunc [mkDirEntry "b.go" false; mkDirEntry "a.go" false;
                  mkDirEntry "B.go" false] compareNames)
       [mkDirEntry "b.go" false; mkDirEntry "a.go" false;
        mkDirEntry "B.go" false]
  /\ (forall l',
        Permutation [mkDirEntry "b.go" false; mkDirEntry "a.go" false;
                     mkDirEntry "B.go" false] l' ->
        SortFunc l' compareNames
        = SortFunc [mkDirEntry "b.go" false; mkDirEntry "a.go" false;
                    mkDirEntry "B.go" false] compareNames)
  /\ (byName [mkDirEntry "b.go" false; mkDirEntry "a.go" false;
              mkDirEntry "B.go" false] ->
      SortFunc [mkDirEntry "b.go" false; mkDirEntry "a.go" false;
                mkDirEntry "B.go" false] compareNames
      = [mkDirEntry "b.go" false; mkDirEntry "a.go" false;
         mkDirEntry "B.go" false]).
Proof.
  apply (files_in_name_order
           [mkDirEntry "b.go" false; mkDirEntry "a.go" false;
            mkDirEntry "B.go" false]).
  simpl. repeat constructor; simpl; intuition discriminate.
Defined.

(** ** The command *)

Section Command.

Context {host : Host} {tools : Toolchain}.

Lemma scanPackage_after (next : list string -> Run) (packagePath : string) :
  (forall out, next out = after out (next [])) ->
  forall out,
    scanPackage next packagePath out
    = after out (scanPackage next packagePath []).
Proof.
  intros Hnext out. unfold scanPackage.
  destruct (String.eqb packagePath "").
  - simpl. now rewrite app_nil_r.
  - destruct (printExported packagePath) as [lines|lines]; simpl.
    + rewrite (Hnext (out ++ lines)%list), (Hnext lines).
      now rewrite after_after.
    + reflexivity.
Qed.

(** What was printed before an argument is kept, whatever becomes of
    the argument. *)
Lemma argsLoop_after (cwd : string) (args : list string) :
  forall out, argsLoop cwd args out = after out (argsLoop cwd args []).
Proof.
  induction args as [|cmdArg rest IH]; intros out; cbn [argsLoop].
  - simpl. now rewrite app_nil_r.
  - destruct (String.eqb (getPackagePath cmdArg cwd) "").
    + destruct (searchPackagePathFromGoModCache cmdArg) as [p|].
      * rewrite (scanPackage_after _ p IH (append out _)).
        rewrite (scanPackage_after _ p IH (append [] _)).
        rewrite after_after. reflexivity.
      * simpl. now rewrite app_nil_r.
    + apply scanPackage_after. exact IH.
Qed.

Lemma argsLoop_concat (cwd : string) (args1 args2 : list string) :
  forall out,
    argsLoop cwd (args1 ++ args2) out
    = match argsLoop cwd args1 out with
      | Finished o => argsLoop cwd args2 o
      | Aborted o => Aborted o
      end.
Proof.
  induction args1 as [|cmdArg rest IH]; intros out;
    cbn [argsLoop List.app]; [reflexivity|].
  assert (Hscan : forall p o,
             scanPackage (argsLoop cwd (rest ++ args2)) p o
             = match scanPackage (argsLoop cwd rest) p o with
               | Finished o' => argsLoop cwd args2 o'
               | Aborted o' => Aborted o'
               end).
  { intros p o. unfold scanPackage.
    destruct (String.eqb p ""); [reflexivity|].
    destruct (printExported p); [apply IH | reflexivity]. }
  destruct (String.eqb (getPackagePath cmdArg cwd) ""); [|apply Hscan].
  destruct (searchPackagePathFromGoModCache cmdArg); [apply Hscan | reflexivity].
Qed.

(** X15. The arguments are handled in the order given, each on its own:
    the run over two lists of arguments put end to end prints what the
    run over the first prints and then, when that run ended, what the
    run over the second prints; when the first run panicked, nothing of
    the second list is looked at. *)
Theorem arguments_in_order (cwd : string) (args1 args2 : list string) :
  argsLoop cwd (args1 ++ args2) []
  = match argsLoop cwd args1 [] with
    | Finished out => after out (argsLoop cwd args2 [])
    | Aborted out => Aborted out
    end.
Proof.
  rewrite argsLoop_concat.
  destruct (argsLoop cwd args1 []) as [out|out]; [|reflexivity].
  apply argsLoop_after.
Qed.

(** X16. What [main] does with one argument.  When the build lookup
    gives a directory, that directory is scanned and nothing else is
    printed; the module cache is not looked at.  When it gives nothing
    and the fallback gives a directory, the notice with that directory
    is printed and the directory is scanned.  When the fallback gives
    the empty path, the notice is printed with nothing after the colon
    and space, and the run panics.  When the fallback panics, nothing
    is printed. *)
Theorem main_resolution (cwd cmdArg : string) :
  Getwd = Some cwd ->
  (forall dir, BuildImport cmdArg cwd = Some dir -> dir <> "" ->
               main [cmdArg] = printExported dir)
  /\ (forall dir,
        getPackagePath cmdArg cwd = "" ->
        searchPackagePathFromGoModCache cmdArg = Some dir -> dir <> "" ->
        main [cmdArg] = after [fallbackNotice dir] (printExported dir))
  /\ (getPackagePath cmdArg cwd = "" ->
      searchPackagePathFromGoModCache cmdArg = Some "" ->
      main [cmdArg] = Aborted [fallbackNotice ""])
  /\ (getPackagePath cmdArg cwd = "" ->
      searchPackagePathFromGoModCache cmdArg = None ->
      main [cmdArg] = Aborted []).
Proof.
  intros Hwd. unfold main. rewrite Hwd. cbn [argsLoop].
  assert (Hscan : forall next dir out,
             (forall o, next o = Finished o) ->
             dir <> "" ->
             scanPackage next dir out = after out (printExported dir)).
  { intros next dir out Hnext Hdir. unfold scanPackage.
    apply String.eqb_neq in Hdir. rewrite Hdir.
    destruct (printExported dir); [apply Hnext | reflexivity]. }
  split; [|split; [|split]].
  - intros dir Himp Hdir. unfold getPackagePath. rewrite Himp.
    rewrite (proj2 (String.eqb_neq dir "") Hdir).
    rewrite Hscan by (auto; reflexivity).
    apply after_nil.
  - intros dir Hget Hsearch Hdir. rewrite Hget, Hsearch. simpl.
    rewrite Hscan by (auto; reflexivity). reflexivity.
  - intros Hget Hsearch. rewrite Hget, Hsearch. reflexivity.
  - intros Hget Hsearch. rewrite Hget, Hsearch. reflexivity.
Qed.

End Command.

Lemma main_resolution_witness :
  (forall dir,
     @BuildImport SampleTools.tools "example.com/p" "/home/user" = Some dir ->
     dir <> "" ->
     @main SampleTools.host SampleTools.tools ["example.com/p"]
     = @printExported SampleTools.host SampleTools.tools dir)
  /\ (forall dir,
        @getPackagePath SampleTools.tools "example.com/p" "/home/user" = "" ->
        @searchPackagePathFromGoModCache SampleTools.host "example.com/p"
        = Some dir ->
        dir <> "" ->
        @main SampleTools.host SampleTools.tools ["example.com/p"]
        = after [@fallbackNotice dir]
                (@printExported SampleTools.host SampleTools.tools dir))
  /\ (@getPackagePath SampleTools.tools "example.com/p" "/home/user" = "" ->
      @searchPackagePathFromGoModCache SampleTools.host "example.com/p"
      = Some "" ->
      @main SampleTools.host SampleTools.tools ["example.com/p"]
      = Aborted [@fallbackNotice ""])
  /\ (@getPackagePath SampleTools.tools "example.com/p" "/home/user" = "" ->
      @searchPackagePathFromGoModCache SampleTools.host "example.com/p"
      = None ->
      @main SampleTools.host SampleTools.tools ["example.com/p"]
      = Aborted []).
Proof.
  apply (@main_resolution SampleTools.host SampleTools.tools
           "/home/user" "example.com/p").
  reflexivity.
Defined.
